(** * Trading robot: indicator engine and signal generator

    A shallow embedding of [src/dashboard.py] ([calculate_technical_indicators],
    [generate_signal]) and [src/main.py] ([simple_moving_average]).

    Numbers.  A pandas cell is a float64.  It is modelled by [fl]: a rational
    number or one of the three special values NaN, +inf, -inf, with the
    arithmetic and the comparisons of IEEE 754 on the special values and exact
    arithmetic on the rationals.  Rounding and overflow are outside the model,
    and zero carries no sign.  Statements over [fl] are about the branches the
    code takes, the positions of its undefined cells and the expressions it
    evaluates; where a statement turns on rounding, module [F64] gives the
    same lines on binary64 floats, with the compensated running sum of pandas'
    rolling mean.

    pandas.  [Series] and [Rolling] give the operations of the library that the
    two files call, as pandas documents them: [diff], [where], the arithmetic
    by cell, and the trailing windows of [rolling(window=w)] with their [mean]
    and [std] ([min_periods] equal to the window, NaN and the infinities left
    out of a window, one degree of freedom taken off in [std]).

    Objects.  A DataFrame is an object on the Python heap; [data[k] = v]
    updates it in place.  The heap is a finite map from locations to frames and
    the indicator engine runs in a state-and-exception monad over it. *)

From Stdlib Require Import QArith Qround Qabs Lqa Lia.
From Stdlib Require Import PrimFloat FloatOps SpecFloat.
From stdpp Require Import gmap strings list pretty.

Local Open Scope Q_scope.

(** ** Floating-point cells *)

Inductive fl : Type :=
| NaN
| PInf
| NInf
| Fin (q : Q).

Module Fl.

Definition Qltb (a b : Q) : bool := negb (Qle_bool b a).
Definition Qzerob (a : Q) : bool := Qeq_bool a 0.

Definition isnan (x : fl) : bool :=
  match x with NaN => true | _ => false end.

Definition isinf (x : fl) : bool :=
  match x with PInf | NInf => true | _ => false end.

Definition neg (x : fl) : fl :=
  match x with
  | NaN => NaN
  | PInf => NInf
  | NInf => PInf
  | Fin q => Fin (- q)
  end.

Definition add (x y : fl) : fl :=
  match x, y with
  | NaN, _ | _, NaN => NaN
  | PInf, NInf | NInf, PInf => NaN
  | PInf, _ | _, PInf => PInf
  | NInf, _ | _, NInf => NInf
  | Fin a, Fin b => Fin (a + b)
  end.

Definition sub (x y : fl) : fl :=
  match x, y with
  | NaN, _ | _, NaN => NaN
  | PInf, PInf | NInf, NInf => NaN
  | PInf, _ | _, NInf => PInf
  | NInf, _ | _, PInf => NInf
  | Fin a, Fin b => Fin (a - b)
  end.

(** sign of a finite factor next to an infinity: zero gives NaN *)
Definition scale_inf (pos : bool) (q : Q) : fl :=
  if Qzerob q then NaN
  else if Qltb 0 q then (if pos then PInf else NInf)
       else (if pos then NInf else PInf).

Definition mul (x y : fl) : fl :=
  match x, y with
  | NaN, _ | _, NaN => NaN
  | PInf, PInf | NInf, NInf => PInf
  | PInf, NInf | NInf, PInf => NInf
  | PInf, Fin q | Fin q, PInf => scale_inf true q
  | NInf, Fin q | Fin q, NInf => scale_inf false q
  | Fin a, Fin b => Fin (a * b)
  end.

(** numpy division: a zero divisor gives an infinity or NaN, never an
    exception *)
Definition div (x y : fl) : fl :=
  match x, y with
  | NaN, _ | _, NaN => NaN
  | PInf, PInf | PInf, NInf | NInf, PInf | NInf, NInf => NaN
  | PInf, Fin q => if Qltb q 0 then NInf else PInf
  | NInf, Fin q => if Qltb q 0 then PInf else NInf
  | Fin _, PInf | Fin _, NInf => Fin 0
  | Fin a, Fin b =>
      if Qzerob b then
        if Qzerob a then NaN else if Qltb 0 a then PInf else NInf
      else Fin (a / b)
  end.

(** [x < y]; false as soon as one side is NaN *)
Definition ltb (x y : fl) : bool :=
  match x, y with
  | NaN, _ | _, NaN => false
  | _, NInf => false
  | NInf, _ => true
  | PInf, _ => false
  | Fin _, PInf => true
  | Fin a, Fin b => Qltb a b
  end.

Definition gtb (x y : fl) : bool := ltb y x.

(** [x <= y]; false as soon as one side is NaN *)
Definition leb (x y : fl) : bool :=
  match x, y with
  | NaN, _ | _, NaN => false
  | NInf, _ => true
  | _, PInf => true
  | _, NInf => false
  | PInf, _ => false
  | Fin a, Fin b => Qle_bool a b
  end.

(** numerical equality of cells: NaN with NaN, each infinity with itself,
    rationals by their value *)
Definition eqv (x y : fl) : Prop :=
  match x, y with
  | NaN, NaN | PInf, PInf | NInf, NInf => True
  | Fin a, Fin b => a == b
  | _, _ => False
  end.

(** Python's [min(a, b)]: [b] when [b < a], else [a] *)
Definition pymin (a b : fl) : fl := if ltb b a then b else a.

End Fl.

Declare Scope fl_scope.
Delimit Scope fl_scope with fl.
Bind Scope fl_scope with fl.
Infix "+" := Fl.add : fl_scope.
Infix "-" := Fl.sub : fl_scope.
Infix "*" := Fl.mul : fl_scope.
Infix "/" := Fl.div : fl_scope.
Notation "- x" := (Fl.neg x) : fl_scope.
Infix "<?" := Fl.ltb : fl_scope.
Infix ">?" := Fl.gtb : fl_scope.
Infix "<=?" := Fl.leb : fl_scope.

(** ** Formatting: the format spec [.1f] *)

(** Round to the nearest integer, ties to even. *)
Definition round_half_even (q : Q) : Z :=
  let f := Qfloor q in
  match Qcompare (q - inject_Z f) (1 # 2) with
  | Lt => f
  | Gt => (f + 1)%Z
  | Eq => if Z.even f then f else (f + 1)%Z
  end.

(** [f"{x:.1f}"] *)
Definition fmt_1f (x : fl) : string :=
  match x with
  | NaN => "nan"
  | PInf => "inf"
  | NInf => "-inf"
  | Fin q =>
      let n := round_half_even (Qabs q * 10) in
      ((if Fl.Qltb q 0 then "-" else "")
         +:+ pretty (n / 10)%Z +:+ "." +:+ pretty (n mod 10)%Z)%string
  end.

(** ** pandas Series *)

Module Series.

Abbreviation t := (list fl).

(** [s.iloc[-1]] *)
Definition iloc_last (s : t) : option fl := last s.

(** [s.diff()]: NaN at the first position, then [s[i] - s[i-1]] *)
Definition diff (s : t) : t :=
  match s with
  | [] => []
  | x :: tl => NaN :: zip_with (fun cur prev => (cur - prev)%fl) tl s
  end.

(** [s.where(cond, other)] with a scalar [other]: keeps the cell where the
    condition holds and puts [other] elsewhere; a comparison with NaN does
    not hold. *)
Definition where_ (cond : fl -> bool) (other : fl) (s : t) : t :=
  (fun x => if cond x then x else other) <$> s.

Definition neg (s : t) : t := Fl.neg <$> s.
Definition add (a b : t) : t := zip_with Fl.add a b.
Definition sub (a b : t) : t := zip_with Fl.sub a b.
Definition div (a b : t) : t := zip_with Fl.div a b.
Definition mul_scalar (a : t) (k : fl) : t := (fun x => (x * k)%fl) <$> a.
Definition radd_scalar (k : fl) (a : t) : t := (fun x => (k + x)%fl) <$> a.
Definition rsub_scalar (k : fl) (a : t) : t := (fun x => (k - x)%fl) <$> a.
Definition rdiv_scalar (k : fl) (a : t) : t := (fun x => (k / x)%fl) <$> a.

End Series.

(** ** Rolling windows *)

Module Rolling.

(** The trailing window that ends at position [i]: the cells at positions
    [i - w + 1 .. i], fewer near the start of the series. *)
Definition window_at (w : nat) (s : Series.t) (i : nat) : list fl :=
  take (Nat.min w (S i)) (drop (S i - w) s).

(** [s.rolling(window=w)] *)
Definition rolling (w : nat) (s : Series.t) : list (list fl) :=
  window_at w s <$> seq 0 (length s).

(** The observations of a window: pandas drops NaN, and turns the
    infinities into NaN before it aggregates. *)
Fixpoint observations (win : list fl) : list Q :=
  match win with
  | [] => []
  | Fin q :: tl => q :: observations tl
  | _ :: tl => observations tl
  end.

Definition Qsum (l : list Q) : Q := foldr Qplus 0 l.

Definition count (l : list Q) : Q := inject_Z (Z.of_nat (length l)).

Definition Qmean (l : list Q) : Q := Qsum l / count l.

(** one window of [.mean()], with [min_periods] *)
Definition win_mean (minp : nat) (win : list fl) : fl :=
  let obs := observations win in
  if (minp <=? length obs)%nat && (0 <? length obs)%nat
  then Fin (Qmean obs) else NaN.

(** sum of squared differences to the mean *)
Definition ssqdm (l : list Q) : Q :=
  let m := Qmean l in Qsum ((fun x => (x - m) * (x - m)) <$> l).

(** one window of [.var()] with [ddof = 1] *)
Definition win_var (minp : nat) (win : list fl) : fl :=
  let obs := observations win in
  if (minp <=? length obs)%nat && (1 <? length obs)%nat
  then Fin (ssqdm obs / (count obs - 1)) else NaN.

(** [.rolling(window=w).mean()]; [min_periods] defaults to the window *)
Definition mean (w : nat) (s : Series.t) : Series.t :=
  win_mean w <$> rolling w s.

Section Std.
(** The square root of the floating-point library, on the non-negative
    rationals. *)
Variable fsqrt : Q -> Q.

(** pandas' [zsqrt]: the root, and 0 for a negative argument *)
Definition zsqrt (x : fl) : fl :=
  match x with
  | NaN => NaN
  | PInf => PInf
  | NInf => Fin 0
  | Fin q => if Fl.Qltb q 0 then Fin 0 else Fin (fsqrt q)
  end.

(** [.rolling(window=w).std()]: the sample standard deviation *)
Definition std (w : nat) (s : Series.t) : Series.t :=
  (fun win => zsqrt (win_var w win)) <$> rolling w s.
End Std.

End Rolling.

(** ** DataFrames, the heap, and the monad of the engine *)

(** A DataFrame: its row index (one timestamp per bar) and its named columns.
    [len(data)] is the number of rows. *)
Record frame : Type := Frame {
  frame_index : list Z;
  frame_cols : gmap string Series.t
}.

Definition frame_len (f : frame) : nat := length (frame_index f).

(** every column has one cell per row *)
Definition frame_wf (f : frame) : Prop :=
  forall (k : string) (c : Series.t),
    frame_cols f !! k = Some c -> length c = frame_len f.

Inductive exn : Type :=
| KeyError (k : string)
| IndexError
| Dangling.

Inductive res (A : Type) : Type :=
| Ok (a : A)
| Raise (e : exn).
Arguments Ok {A} a.
Arguments Raise {A} e.

Abbreviation loc := positive.
Abbreviation heap := (gmap positive frame).

(** A Python reference to a DataFrame, or [None]. *)
Abbreviation pyref := (option positive).

Module M.

Definition t (A : Type) : Type := heap -> res (A * heap).

Definition ret {A} (a : A) : t A := fun h => Ok (a, h).

Definition bind {A B} (m : t A) (k : A -> t B) : t B :=
  fun h => match m h with
           | Ok (a, h') => k a h'
           | Raise e => Raise e
           end.

Definition raise {A} (e : exn) : t A := fun _ => Raise e.

(** [len(data)] *)
Definition len (d : loc) : t nat :=
  fun h => match h !! d with
           | Some f => Ok (frame_len f, h)
           | None => Raise Dangling
           end.

(** [data[k]] *)
Definition getitem (d : loc) (k : string) : t Series.t :=
  fun h => match h !! d with
           | Some f => match frame_cols f !! k with
                       | Some c => Ok (c, h)
                       | None => Raise (KeyError k)
                       end
           | None => Raise Dangling
           end.

(** [data[k] = c]: the frame at [d] is updated in place *)
Definition setitem (d : loc) (k : string) (c : Series.t) : t unit :=
  fun h => match h !! d with
           | Some f =>
               Ok (tt, <[d := Frame (frame_index f) (<[k := c]> (frame_cols f))]> h)
           | None => Raise Dangling
           end.

End M.

Notation "x <- m ;; k" := (M.bind m (fun x => k))
  (at level 100, m at next level, right associativity).
Notation "m ;;; k" := (M.bind m (fun _ => k))
  (at level 100, right associativity).

(** ** src/main.py *)

(** [simple_moving_average(data, window)], on the frame itself: it reads
    [data['Close']] and changes nothing. *)
Definition simple_moving_average (data : frame) (window : nat) : res Series.t :=
  match frame_cols data !! "Close" with
  | Some close => Ok (Rolling.mean window close)
  | None => Raise (KeyError "Close")
  end.

(** ** src/dashboard.py: the indicator engine *)

Section Engine.

Variable fsqrt : Q -> Q.

Definition calculate_technical_indicators (data : pyref) : M.t pyref :=
  match data with
  | None => M.ret None
  | Some d =>
      n <- M.len d ;;
      if (n <? 20)%nat then M.ret None else
      (* Simple Moving Averages *)
      close <- M.getitem d "Close" ;;
      M.setitem d "SMA_20" (Rolling.mean 20 close) ;;;
      close <- M.getitem d "Close" ;;
      M.setitem d "SMA_50" (Rolling.mean 50 close) ;;;
      (* RSI *)
      close <- M.getitem d "Close" ;;
      let delta := Series.diff close in
      let gain :=
        Rolling.mean 14 (Series.where_ (fun x => x >? Fin 0)%fl (Fin 0) delta) in
      let loss :=
        Rolling.mean 14
          (Series.neg (Series.where_ (fun x => x <? Fin 0)%fl (Fin 0) delta)) in
      let rs := Series.div gain loss in
      M.setitem d "RSI"
        (Series.rsub_scalar (Fin 100)
           (Series.rdiv_scalar (Fin 100) (Series.radd_scalar (Fin 1) rs))) ;;;
      (* Bollinger Bands *)
      close <- M.getitem d "Close" ;;
      M.setitem d "BB_Middle" (Rolling.mean 20 close) ;;;
      close <- M.getitem d "Close" ;;
      let bb_std := Rolling.std fsqrt 20 close in
      bb_middle <- M.getitem d "BB_Middle" ;;
      M.setitem d "BB_Upper"
        (Series.add bb_middle (Series.mul_scalar bb_std (Fin 2))) ;;;
      bb_middle <- M.getitem d "BB_Middle" ;;
      M.setitem d "BB_Lower"
        (Series.sub bb_middle (Series.mul_scalar bb_std (Fin 2))) ;;;
      M.ret (Some d)
  end.

End Engine.

(** ** src/dashboard.py: the signal generator *)

Inductive kind : Type := BUY | SELL | NEUTRAL | INSUFFICIENT_DATA.

(** the returned tuple: kind, reason, confidence *)
Definition signal : Type := (kind * string * fl)%type.

(** [data[k].iloc[-1]] *)
Definition latest (data : frame) (k : string) : res fl :=
  match frame_cols data !! k with
  | None => Raise (KeyError k)
  | Some c => match Series.iloc_last c with
              | None => Raise IndexError
              | Some x => Ok x
              end
  end.

Definition res_bind {A B} (m : res A) (k : A -> res B) : res B :=
  match m with
  | Ok a => k a
  | Raise e => Raise e
  end.

Notation "x <-- m ;; k" := (res_bind m (fun x => k))
  (at level 100, m at next level, right associativity).

(** [generate_signal(data)] only reads its argument, so it is a function of the
    frame the reference points to ([None] for Python's [None]). *)
Definition generate_signal (data : option frame) : res signal :=
  match data with
  | None => Ok (INSUFFICIENT_DATA, "Not enough data", Fin 0)
  | Some data =>
      if (frame_len data <? 20)%nat
      then Ok (INSUFFICIENT_DATA, "Not enough data", Fin 0)
      else
        current_price <-- latest data "Close" ;;
        sma_20 <-- latest data "SMA_20" ;;
        rsi <-- latest data "RSI" ;;
        if Fl.isnan sma_20 || Fl.isnan rsi
        then Ok (NEUTRAL, "Calculating...", Fin 50)
        else
          let price_signal := if (current_price >? sma_20)%fl then BUY else SELL in
          let rsi_signal : string :=
            if (rsi <? Fin 30)%fl then "OVERSOLD"
            else if (rsi >? Fin 70)%fl then "OVERBOUGHT" else "NEUTRAL" in
          (* Combine signals; [rsi_signal] is not used *)
          if match price_signal with BUY => true | _ => false end
             && (rsi <? Fin 70)%fl
          then
            let confidence :=
              Fl.pymin (Fin 80)
                (Fin 50 + (current_price - sma_20) / sma_20 * Fin 1000)%fl in
            Ok (BUY, "Price above SMA20, RSI: " +:+ fmt_1f rsi, confidence)
          else if match price_signal with SELL => true | _ => false end
                  && (rsi >? Fin 30)%fl
          then
            let confidence :=
              Fl.pymin (Fin 80)
                (Fin 50 + (sma_20 - current_price) / sma_20 * Fin 1000)%fl in
            Ok (SELL, "Price below SMA20, RSI: " +:+ fmt_1f rsi, confidence)
          else
            Ok (NEUTRAL, "Mixed signals, RSI: " +:+ fmt_1f rsi, Fin 40)
  end.

(** [generate_signal] on a reference into the heap *)
Definition generate_signal_at (data : pyref) (h : heap) : res signal :=
  match data with
  | None => generate_signal None
  | Some d => match h !! d with
              | Some f => generate_signal (Some f)
              | None => Raise Dangling
              end
  end.

(** The engine followed by [generate_signal], as [main] in src/dashboard.py
    chains them: indicators first (when a frame came back), then the signal on
    the result.  The reads [main] makes in between, for its metrics row, are in
    [dashboard_metrics]. *)
Definition dashboard_signal (fsqrt : Q -> Q) (data : pyref) (h : heap)
  : res (option signal) :=
  match (match data with
         | Some _ => calculate_technical_indicators fsqrt data h
         | None => Ok (None, h)
         end) with
  | Raise e => Raise e
  | Ok (None, _) => Ok None
  | Ok (Some d, h') =>
      match generate_signal_at (Some d) h' with
      | Ok s => Ok (Some s)
      | Raise e => Raise e
      end
  end.

(** ** Concrete inputs *)

(** A rational approximation of the square root from below, to six decimal
    places of the root of numerator times denominator: one admissible
    instance of the library's [sqrt]. *)
Definition approx_sqrt (q : Q) : Q :=
  Qmake (Z.sqrt (Qnum q * Zpos (Qden q) * 1000000000000))
        (Qden q * 1000000).

(** An OHLCV frame whose bars all have open = high = low = close and volume
    0, with timestamps 0, 1, 2, ... *)
Definition frame_of_closes (closes : list Q) : frame :=
  let c := Fin <$> closes in
  Frame (Z.of_nat <$> seq 0 (length closes))
        (<["Open" := c]> (<["High" := c]> (<["Low" := c]> (<["Close" := c]>
           (<["Volume" := (fun _ => Fin 0) <$> closes]> ∅))))).

(** the heap that holds one frame, at location 1 *)
Definition heap_of (f : frame) : heap := {[ 1%positive := f ]}.

(** ** Notions used in the statements *)

(** The input of [generate_signal] is too short: [None], or fewer than 20 bars. *)
Definition too_short (data : option frame) : Prop :=
  match data with
  | None => True
  | Some f => (frame_len f < 20)%nat
  end.

#[global] Instance too_short_dec (data : option frame) : Decision (too_short data).
Proof. destruct data as [f|]; cbn; apply _. Defined.

#[global] Instance eqv_dec (x y : fl) : Decision (Fl.eqv x y).
Proof.
  destruct x as [| | |a], y as [| | |b]; cbn; try apply _.
  destruct (Qeq_dec a b); [by left | by right].
Defined.



(** The locals of [calculate_technical_indicators] as functions of the
    [Close] column, under the names they have in the source. *)
Module Locals.

Definition delta (close : Series.t) : Series.t := Series.diff close.

Definition gain (close : Series.t) : Series.t :=
  Rolling.mean 14 (Series.where_ (fun x => x >? Fin 0)%fl (Fin 0) (delta close)).

Definition loss (close : Series.t) : Series.t :=
  Rolling.mean 14
    (Series.neg (Series.where_ (fun x => x <? Fin 0)%fl (Fin 0) (delta close))).

Definition rs (close : Series.t) : Series.t := Series.div (gain close) (loss close).

Definition rsi (close : Series.t) : Series.t :=
  Series.rsub_scalar (Fin 100)
    (Series.rdiv_scalar (Fin 100) (Series.radd_scalar (Fin 1) (rs close))).

Definition bb_middle (close : Series.t) : Series.t := Rolling.mean 20 close.

Definition bb_std (fsqrt : Q -> Q) (close : Series.t) : Series.t :=
  Rolling.std fsqrt 20 close.

Definition bb_upper (fsqrt : Q -> Q) (close : Series.t) : Series.t :=
  Series.add (bb_middle close) (Series.mul_scalar (bb_std fsqrt close) (Fin 2)).

Definition bb_lower (fsqrt : Q -> Q) (close : Series.t) : Series.t :=
  Series.sub (bb_middle close) (Series.mul_scalar (bb_std fsqrt close) (Fin 2)).

End Locals.

(** the columns of a frame once the engine has run on it *)
Definition enriched_cols (fsqrt : Q -> Q) (close : Series.t)
    (cols : gmap string Series.t) : gmap string Series.t :=
  <["BB_Lower" := Locals.bb_lower fsqrt close]>
    (<["BB_Upper" := Locals.bb_upper fsqrt close]>
       (<["BB_Middle" := Locals.bb_middle close]>
          (<["RSI" := Locals.rsi close]>
             (<["SMA_50" := Rolling.mean 50 close]>
                (<["SMA_20" := Rolling.mean 20 close]> cols))))).

(** the six columns the engine writes *)
Definition indicator_names : list string :=
  ["SMA_20"; "SMA_50"; "RSI"; "BB_Middle"; "BB_Upper"; "BB_Lower"].

(** The close at position [j] of a series of defined closes. *)
Definition nth_close (closes : list Q) (j : nat) : Q := default 0 (closes !! j).

(** The arithmetic mean of the closes at positions [i - w + 1 .. i]: their
    sum, divided by [w] as a float division. *)
Definition trailing_mean (closes : list Q) (w i : nat) : fl :=
  (Fin (Rolling.Qsum (nth_close closes <$> seq (S i - w) w))
   / Fin (inject_Z (Z.of_nat w)))%fl.

(** a column is undefined at every position before [n] *)
Definition undefined_before (n : nat) (col : Series.t) : Prop :=
  forall i : nat, (i < n)%nat -> (i < length col)%nat -> col !! i = Some NaN.

(** a cell that is undefined or a rational that is not negative *)
Definition nonneg_cell (x : fl) : Prop :=
  x = NaN \/ exists q : Q, x = Fin q /\ 0 <= q.

(** one cell of the RSI column, from the cells of [gain] and [loss] *)
Definition rsi_cell (g l : fl) : fl :=
  (Fin 100 - Fin 100 / (Fin 1 + g / l))%fl.

(** ** Concrete series *)

(** 20 bars that rise by 3 and fall by 1 in turn *)
Definition zigzag20 : list Q :=
  [100; 103; 102; 105; 104; 107; 106; 109; 108; 111;
   110; 113; 112; 115; 114; 117; 116; 119; 118; 121].

(** 3 bars *)
Definition three_bars : list Q := [100; 101; 102].


(** 30 bars with the same close *)
Definition flat30 : list Q := replicate 30 100.

(** the frame at location 1 once the engine has run on [heap_of f], and [f]
    itself when the engine gives no frame back *)
Definition enriched (f : frame) : frame :=
  match calculate_technical_indicators approx_sqrt (Some 1%positive) (heap_of f) with
  | Ok (Some d, h') => default f (h' !! d)
  | _ => f
  end.

(** the latest cell of a column, NaN when there is none *)
Definition latest_cell (f : frame) (k : string) : fl :=
  match latest f k with
  | Ok x => x
  | Raise _ => NaN
  end.

(** 20 bars that rise by 2 and fall by 1 in turn *)
Definition climb20 : list Q :=
  [100; 102; 101; 103; 102; 104; 103; 105; 104; 106;
   105; 107; 106; 108; 107; 109; 108; 110; 109; 111].

(** the frame of [climb20], before and after the engine has run on it *)
Definition climb_raw : frame := frame_of_closes climb20.
Definition climb_frame : frame := enriched climb_raw.

(** A frame of 20 bars that has the latest close, SMA_20 and RSI of
    [climb_frame], written as other fractions, and differs from it everywhere
    else: it has no other column, and 0 in all earlier rows. *)
Definition other_frame : frame :=
  Frame (Z.of_nat <$> seq 100 20)
        (<["Close" := replicate 19 (Fin 0) ++ [Fin (222 # 2)]]>
           (<["SMA_20" := replicate 19 (Fin 0) ++ [Fin (211 # 2)]]>
              (<["RSI" := replicate 19 (Fin 0) ++ [Fin (200 # 3)]]> ∅))).

(** ** The cells behind the RSI, for a series of defined closes *)

(** The price change at position [j]; position 0 has none. *)
Definition change (closes : list Q) (j : nat) : option Q :=
  match j with
  | O => None
  | S j' => Some (nth_close closes j - nth_close closes j')
  end.

(** The cell of [delta.where(delta > 0, 0)] at position [j]: the rise, and 0
    where the price did not rise or where there is no change. *)
Definition rise (closes : list Q) (j : nat) : Q :=
  match change closes j with
  | Some d => if Fl.Qltb 0 d then d else 0
  | None => 0
  end.

(** The cell of [-delta.where(delta < 0, 0)] at position [j]: the fall, and 0
    where the price did not fall or where there is no change. *)
Definition fall (closes : list Q) (j : nat) : Q :=
  match change closes j with
  | Some d => if Fl.Qltb d 0 then - d else - 0
  | None => - 0
  end.

(** the mean of [cell] over the [w] positions that end at [i] *)
Definition mean_over (cell : nat -> Q) (w i : nat) : Q :=
  Rolling.Qsum (cell <$> seq (S i - w) w) / inject_Z (Z.of_nat w).

(** ** Formatting with [.Nf], and printed output *)

(** [s * n] on strings *)
Fixpoint str_mul (s : string) (n : nat) : string :=
  match n with
  | O => ""
  | S n' => (s +:+ str_mul s n')%string
  end.

(** zeros in front, up to [n] characters *)
Definition pad_zeros (n : nat) (s : string) : string :=
  (str_mul "0" (n - String.length s) +:+ s)%string.

(** [f"{x:.Nf}"] for [N = digits]: rounded to the nearest, ties to even *)
Definition fmt_f (digits : nat) (x : fl) : string :=
  match x with
  | NaN => "nan"
  | PInf => "inf"
  | NInf => "-inf"
  | Fin q =>
      let scale := (10 ^ Z.of_nat digits)%Z in
      let n := round_half_even (Qabs q * inject_Z scale) in
      ((if Fl.Qltb q 0 then "-" else "")
         +:+ pretty (n / scale)%Z
         +:+ (if (digits =? 0)%nat then ""
              else "." +:+ pad_zeros digits (pretty (n mod scale)%Z)))%string
  end.

(** What a program has printed: a line of text, or a DataFrame. *)
Inductive out : Type :=
| Line (s : string)
| Table (f : frame).

(** Printing and exceptions: the output so far, and a result or the
    exception that ended the run. *)
Module Out.

Definition t (A : Type) : Type := (list out * res A)%type.

Definition ret {A} (a : A) : t A := ([], Ok a).

Definition bind {A B} (m : t A) (k : A -> t B) : t B :=
  match m with
  | (o, Ok a) => let '(o', r) := k a in (o ++ o', r)
  | (o, Raise e) => (o, Raise e)
  end.

(** [print(s)] *)
Definition print (s : string) : t unit := ([Line s], Ok tt).

(** [print(df)] *)
Definition print_frame (f : frame) : t unit := ([Table f], Ok tt).

(** an expression that may raise *)
Definition eval {A} (r : res A) : t A := ([], r).

End Out.

Notation "x <~ m ;; k" := (Out.bind m (fun x => k))
  (at level 100, m at next level, right associativity).
Notation "m ~;; k" := (Out.bind m (fun _ => k))
  (at level 100, right associativity).

(** ** DataFrame operations of the two programs *)

(** [data[k]] on the frame itself *)
Definition column (data : frame) (k : string) : res Series.t :=
  match frame_cols data !! k with
  | Some c => Ok c
  | None => Raise (KeyError k)
  end.

(** [data[[k1, k2, ...]]]: the frame with these columns only; [KeyError] (here
    with the first missing name) when one is missing *)
Fixpoint select (data : frame) (ks : list string) : res (gmap string Series.t) :=
  match ks with
  | [] => Ok ∅
  | k :: ks' =>
      c <-- column data k ;;
      m <-- select data ks' ;;
      Ok (<[k := c]> m)
  end.

Definition getitems (data : frame) (ks : list string) : res frame :=
  m <-- select data ks ;; Ok (Frame (frame_index data) m).

(** [data.tail(n)]: the last [n] rows *)
Definition tail (n : nat) (data : frame) : frame :=
  Frame (drop (length (frame_index data) - n) (frame_index data))
        ((fun c : Series.t => drop (length c - n) c) <$> frame_cols data).

(** the newline character *)
Definition LF : string := String (Ascii.ascii_of_nat 10) "".

(** ** src/main.py: the command-line program *)

Module Cli.

Section Provider.

(** [yf.Ticker(symbol).history(period=period)]: a frame, or the text of the
    exception it raised. *)
Variable yf_history : string -> string -> frame + string.

Definition get_market_data (symbol : string) (period : string)
  : Out.t (option frame) :=
  match yf_history symbol period with
  | inl data => Out.ret (Some data)
  | inr e =>
      Out.print ("Error getting data for " +:+ symbol +:+ ": " +:+ e) ~;;
      Out.ret None
  end.

Definition main : Out.t unit :=
  Out.print "🤖 Trading Robot Starting..." ~;;
  Out.print (str_mul "=" 50) ~;;
  (* Test with Gold futures *)
  let symbol := "GC=F" in
  Out.print ("📊 Getting data for " +:+ symbol) ~;;
  (* Get market data *)
  data <~ get_market_data symbol "1mo" ;;
  (match data with
   | Some data =>
       Out.print ("✅ Successfully got " +:+ pretty (frame_len data)
                  +:+ " data points") ~;;
       price <~ Out.eval (latest data "Close") ;;
       Out.print ("📈 Latest price: $" +:+ fmt_f 2 price) ~;;
       (* Calculate simple moving average *)
       sma_20 <~ Out.eval (simple_moving_average data 20) ;;
       latest_sma <~ Out.eval (match Series.iloc_last sma_20 with
                               | Some x => Ok x
                               | None => Raise IndexError
                               end) ;;
       (if negb (Fl.isnan latest_sma) then
          Out.print ("📊 20-day Moving Average: $" +:+ fmt_f 2 latest_sma) ~;;
          (* Simple signal logic *)
          current_price <~ Out.eval (latest data "Close") ;;
          if (current_price >? latest_sma)%fl
          then Out.print "🟢 Signal: Price above MA - Potential BUY"
          else Out.print "🔴 Signal: Price below MA - Potential SELL"
        else Out.ret tt) ~;;
       Out.print (LF +:+ "📋 Last 3 days of data:") ~;;
       ohlc <~ Out.eval (getitems data ["Open"; "High"; "Low"; "Close"]) ;;
       Out.print_frame (tail 3 ohlc)
   | None =>
       Out.print "❌ Failed to get market data"
   end) ~;;
  Out.print (LF +:+ "🤖 Trading Robot Finished!").

End Provider.

(** the two signal lines *)
Definition buy_line : out := Line "🟢 Signal: Price above MA - Potential BUY".
Definition sell_line : out := Line "🔴 Signal: Price below MA - Potential SELL".

End Cli.

(** ** src/dashboard.py: the chart *)

(** A Plotly figure, as the calls that build it: the subplot grid, the traces
    with the row and column they are added to, the horizontal lines, and the
    layout. *)
Module Plot.

Inductive trace : Type :=
| Candlestick (x : list Z) (open high low close : Series.t) (name : string)
    (increasing_line_color decreasing_line_color : string)
| Scatter (x : list Z) (y : Series.t) (name : string)
    (line_color : string) (line_width : Z) (fill : option (string * string))
| Bar (x : list Z) (y : Series.t) (name : string) (marker_color : string).

Record hline : Type := HLine {
  hl_y : Z; hl_dash : string; hl_color : string; hl_row : nat; hl_col : nat
}.

Record subplots : Type := Subplots {
  sp_rows : nat; sp_cols : nat; sp_shared_xaxes : bool;
  sp_vertical_spacing : Q; sp_titles : list string; sp_row_width : list Q
}.

Record layout : Type := Layout {
  ly_title : string; ly_rangeslider_visible : bool; ly_height : Z;
  ly_showlegend : bool; ly_plot_bgcolor : string; ly_paper_bgcolor : string;
  ly_font_family : string; ly_font_size : Z;
  ly_margin : Z * Z * Z * Z
}.

Record figure : Type := Figure {
  fig_subplots : subplots;
  fig_traces : list (trace * nat * nat);
  fig_hlines : list hline;
  fig_layout : layout
}.

(** the series a trace plots against its [x] *)
Definition series_of (t : trace) : list Series.t :=
  match t with
  | Candlestick _ o h l c _ _ _ => [o; h; l; c]
  | Scatter _ y _ _ _ _ => [y]
  | Bar _ y _ _ => [y]
  end.

Definition x_of (t : trace) : list Z :=
  match t with
  | Candlestick x _ _ _ _ _ _ _ => x
  | Scatter x _ _ _ _ _ => x
  | Bar x _ _ _ => x
  end.

End Plot.

(** [create_candlestick_chart(data, symbol)] reads the frame and builds the
    figure; a column that is missing raises [KeyError] where it is read. *)
Definition create_candlestick_chart (data : frame) (symbol : string)
  : res Plot.figure :=
  let fig_sub :=
    Plot.Subplots 3 1 true (5 # 100)
      [(symbol +:+ " Price Chart")%string; "Volume"; "RSI"]
      [7 # 10; 15 # 100; 15 # 100] in
  (* Candlestick chart *)
  o <-- column data "Open" ;;
  hi <-- column data "High" ;;
  lo <-- column data "Low" ;;
  c <-- column data "Close" ;;
  let t1 := (Plot.Candlestick (frame_index data) o hi lo c "Price"
               "#00ff88" "#ff4444", 1%nat, 1%nat) in
  (* Moving averages *)
  sma_20 <-- column data "SMA_20" ;;
  let t2 := (Plot.Scatter (frame_index data) sma_20 "SMA 20" "#ff9500" 2 None,
             1%nat, 1%nat) in
  sma_50 <-- column data "SMA_50" ;;
  let t3 := (Plot.Scatter (frame_index data) sma_50 "SMA 50" "#0099ff" 2 None,
             1%nat, 1%nat) in
  (* Bollinger Bands *)
  bb_upper <-- column data "BB_Upper" ;;
  let t4 := (Plot.Scatter (frame_index data) bb_upper "BB Upper"
               "rgba(128,128,128,0.5)" 1 None, 1%nat, 1%nat) in
  bb_lower <-- column data "BB_Lower" ;;
  let t5 := (Plot.Scatter (frame_index data) bb_lower "BB Lower"
               "rgba(128,128,128,0.5)" 1
               (Some ("tonexty", "rgba(128,128,128,0.1)")), 1%nat, 1%nat) in
  (* Volume *)
  volume <-- column data "Volume" ;;
  let t6 := (Plot.Bar (frame_index data) volume "Volume" "rgba(158,202,225,0.6)",
             2%nat, 1%nat) in
  (* RSI *)
  rsi <-- column data "RSI" ;;
  let t7 := (Plot.Scatter (frame_index data) rsi "RSI" "purple" 2 None,
             3%nat, 1%nat) in
  (* RSI levels *)
  let lines := [Plot.HLine 70 "dash" "red" 3 1; Plot.HLine 30 "dash" "green" 3 1] in
  (* Update layout *)
  let lay :=
    Plot.Layout (symbol +:+ " Trading Analysis")%string false 800 true
      "rgba(0,0,0,0)" "rgba(0,0,0,0)" "Inter, sans-serif" 12 (0, 0, 30, 0)%Z in
  Ok (Plot.Figure fig_sub [t1; t2; t3; t4; t5; t6; t7] lines lay).

(** the columns the chart reads, in the order it reads them *)
Definition chart_columns : list string :=
  ["Open"; "High"; "Low"; "Close"; "SMA_20"; "SMA_50"; "BB_Upper"; "BB_Lower";
   "Volume"; "RSI"].

(** the first of the names [ks] that is no column of the frame *)
Fixpoint first_missing (data : frame) (ks : list string) : option string :=
  match ks with
  | [] => None
  | k :: ks' =>
      match frame_cols data !! k with
      | Some _ => first_missing data ks'
      | None => Some k
      end
  end.

(** ** More concrete inputs *)

(** a frame of 20 bars that has volumes and no prices *)
Definition volume_only20 : frame :=
  Frame (Z.of_nat <$> seq 0 20) {[ "Volume" := replicate 20 (Fin 0) ]}.

(** the heap once the engine has run on [heap_of f] *)
Definition heap_after (f : frame) : heap :=
  match calculate_technical_indicators approx_sqrt (Some 1%positive) (heap_of f) with
  | Ok (_, h') => h'
  | Raise _ => heap_of f
  end.

(** a provider that returns the frame [f] for every symbol *)
Definition provider_of (f : frame) : string -> string -> frame + string :=
  fun _ _ => inl f.

(** * The float64 reading of the rolling mean and of the RSI

    The cells of [fl] carry exact rationals.  The program computes with IEEE 754
    doubles, and pandas computes a rolling mean by a running sum: it adds the
    cell that enters the window and subtracts the cell that leaves it, both
    with Kahan's compensation ([roll_mean], [add_mean], [remove_mean] and
    [calc_mean] of its window aggregations).  Module [F64] gives this reading
    on the primitive binary64 floats, for the statements that depend on
    rounding. *)

Module F64.

Local Open Scope float_scope.

Abbreviation series := (list float).

(** the sign bit of a cell that is not NaN; it is set on -0.0 *)
Definition signbit (x : float) : bool := get_sign x.

(** a count as a double; exact below 2^53 *)
Fixpoint of_nat (n : nat) : float :=
  match n with
  | O => 0
  | S n' => of_nat n' + 1
  end.



(** ** pandas' running mean *)

(** The state of [roll_mean]: the number of observations in the window, their
    running sum, the number of them with the sign bit set, the two
    compensations, and the length and value of the latest run of equal
    observations. *)
Record mean_state : Type := MeanState {
  nobs : nat;
  sum_x : float;
  neg_ct : nat;
  compensation_add : float;
  compensation_remove : float;
  num_consecutive_same_value : nat;
  prev_value : float
}.

(** [add_mean]: a cell enters the window; NaN is skipped *)
Definition add_mean (val : float) (st : mean_state) : mean_state :=
  if val =? val then
    let y := val - compensation_add st in
    let t := sum_x st + y in
    MeanState (S (nobs st)) t
      (if signbit val then S (neg_ct st) else neg_ct st)
      (t - sum_x st - y) (compensation_remove st)
      (if val =? prev_value st then S (num_consecutive_same_value st) else 1%nat)
      val
  else st.

(** [remove_mean]: a cell leaves the window; NaN is skipped *)
Definition remove_mean (val : float) (st : mean_state) : mean_state :=
  if val =? val then
    let y := - val - compensation_remove st in
    let t := sum_x st + y in
    MeanState (Nat.pred (nobs st)) t
      (if signbit val then Nat.pred (neg_ct st) else neg_ct st)
      (compensation_add st) (t - sum_x st - y)
      (num_consecutive_same_value st) (prev_value st)
  else st.

(** [calc_mean]: the cell of the result, NaN under [minp] observations *)
Definition calc_mean (minp : nat) (st : mean_state) : float :=
  if (minp <=? nobs st)%nat && (0 <? nobs st)%nat then
    let result := sum_x st / of_nat (nobs st) in
    if (nobs st <=? num_consecutive_same_value st)%nat then prev_value st
    else if (neg_ct st =? 0)%nat && (result <? 0) then 0
    else if (neg_ct st =? nobs st)%nat && (0 <? result) then 0
    else result
  else nan.

(** the bounds of the window that ends at position [i]: cells [start .. end-1] *)
Definition window_start (w i : nat) : nat := (S i - w)%nat.
Definition window_end (i : nat) : nat := S i.

(** [values[a:b]] *)
Definition slice (values : series) (a b : nat) : series :=
  take (b - a) (drop a values).

(** the state before the first cell of a window that starts at [s] *)
Definition setup (values : series) (s : nat) : mean_state :=
  MeanState 0 0 0 0 0 0 (nth s values nan).

(** One turn of the loop of [roll_mean], at position [i]: a window that does
    not overlap the one before is summed afresh; otherwise the cells that
    left are removed and the cells that entered are added. *)
Definition roll_step (w : nat) (values : series) (st : mean_state) (i : nat)
  : mean_state :=
  let s := window_start w i in
  let e := window_end i in
  if (i =? 0)%nat || (window_end (i - 1) <=? s)%nat
  then foldl (fun st v => add_mean v st) (setup values s) (slice values s e)
  else
    let st :=
      foldl (fun st v => remove_mean v st) st
            (slice values (window_start w (i - 1)) s) in
    foldl (fun st v => add_mean v st) st (slice values (window_end (i - 1)) e).

Fixpoint roll_from (w minp : nat) (values : series) (st : mean_state)
    (positions : list nat) : series :=
  match positions with
  | [] => []
  | i :: tl =>
      let st' := roll_step w values st i in
      calc_mean minp st' :: roll_from w minp values st' tl
  end.

Definition roll_mean (values : series) (w minp : nat) : series :=
  roll_from w minp values (setup values 0) (seq 0 (length values)).

(** [s.rolling(window=w).mean()]: [min_periods] defaults to the window, and
    the infinities are made NaN before the sum. *)
Definition mean (w : nat) (s : series) : series :=
  roll_mean ((fun x => if is_infinity x then nan else x) <$> s) w w.

(** ** The same lines of the two programs, on doubles *)

(** [s.diff()] *)
Definition diff (s : series) : series :=
  match s with
  | [] => []
  | _ :: tl => nan :: zip_with (fun cur prev => cur - prev) tl s
  end.

(** [s.where(cond, other)] *)
Definition where_ (cond : float -> bool) (other : float) (s : series) : series :=
  (fun x => if cond x then x else other) <$> s.

(** [simple_moving_average(data, window)] of src/main.py *)
Definition simple_moving_average (data : gmap string series) (window : nat)
  : res series :=
  match data !! "Close" with
  | Some close => Ok (mean window close)
  | None => Raise (KeyError "Close")
  end.

(** the locals [gain], [loss], [rs] and the column [RSI] of the engine *)
Definition gain (close : series) : series :=
  mean 14 (where_ (fun x => 0 <? x) 0 (diff close)).

Definition loss (close : series) : series :=
  mean 14 ((fun x => - x) <$> where_ (fun x => x <? 0) 0 (diff close)).

Definition rs (close : series) : series :=
  zip_with (fun g l => g / l) (gain close) (loss close).

Definition rsi (close : series) : series :=
  (fun x => 100 - 100 / (1 + x)) <$> rs close.

(** ** Concrete series of doubles *)


(** Twenty closes: six bars at 100, one bar a single unit in the last place
    lower, and thirteen bars from 1000000 up by 1 a bar. *)
Definition rally20 : series :=
  [100; 100; 100; 100; 100; 100; next_down 100;
   1000000; 1000001; 1000002; 1000003; 1000004; 1000005; 1000006;
   1000007; 1000008; 1000009; 1000010; 1000011; 1000012].

(** Thirty closes between 0.99 and 7.7 whose falls cancel in the running sum. *)
Definition drift30 : series :=
  [0x1.ffffffffde440p-1; 0x1.ffffffffde43cp-1; 0x1.ec76da89f90e4p+2;
   0x1.27320604197d8p+0; 0x1.27320604525a8p+0; 0x1.27320604525a6p+0;
   0x1.27320605ebdb1p+0; 0x1.27320605ebdafp+0; 0x1.27320605ebdafp+0;
   0x1.27320605ebdb2p+0; 0x1.2e8e7a87bc12ep+1; 0x1.2e8e7a8852660p+1;
   0x1.2e8e7a8852660p+1; 0x1.2e8e7a8a3b915p+1; 0x1.30ce07d38cb4bp+1;
   0x1.30ce07d38cb4bp+1; 0x1.3a2d9e1eac1c6p+1; 0x1.3a2d9e1eac1c5p+1;
   0x1.3a2d9e1eac1c6p+1; 0x1.3a2d9e20326cbp+1; 0x1.3a2d9e20326cbp+1;
   0x1.3a2d9e20326cbp+1; 0x1.3a2d9e20326cbp+1; 0x1.3a2d9e20326cbp+1;
   0x1.3a2d9e20326cap+1; 0x1.3a2d9e20326ccp+1; 0x1.3a2d9e2014939p+1;
   0x1.3a2d9e2014939p+1; 0x1.3a2d9e2014938p+1; 0x1.3a2d9e221cba7p+1].

End F64.

(** * src/dashboard.py: [main], from the fetched frame to the signal *)

(** [s.iloc[-2]] *)
Definition iloc_prev (s : Series.t) : option fl :=
  match length s with
  | S (S n) => s !! n
  | _ => None
  end.

(** [data[k].iloc[-2]] *)
Definition previous (data : frame) (k : string) : res fl :=
  match frame_cols data !! k with
  | None => Raise (KeyError k)
  | Some c => match iloc_prev c with
              | None => Raise IndexError
              | Some x => Ok x
              end
  end.

(** What the metrics row of the page shows: the values that go into the price,
    volume and RSI metrics, and the signal of the fourth column. *)
Record metrics : Type := Metrics {
  current_price : fl;
  price_change : fl;
  price_change_pct : fl;
  volume : fl;
  rsi_metric : option fl;
  signal_shown : signal
}.

(** The statements of [main] from the fetch to the signal: the indicator
    engine when a frame came back, the error message and [return] when there
    is nothing to show ([None]), and then the reads of the metrics row in the
    order of the code: the last two closes, the latest volume, the latest RSI,
    and [generate_signal]. *)
Definition dashboard_metrics (fsqrt : Q -> Q) (data : pyref) (h : heap)
  : res (option metrics) :=
  match (match data with
         | Some _ => calculate_technical_indicators fsqrt data h
         | None => Ok (None, h)
         end) with
  | Raise e => Raise e
  | Ok (None, _) => Ok None
  | Ok (Some d, h') =>
      match h' !! d with
      | None => Raise Dangling
      | Some f =>
          current_price <-- latest f "Close" ;;
          prev_price <-- previous f "Close" ;;
          let price_change := (current_price - prev_price)%fl in
          let price_change_pct := (price_change / prev_price * Fin 100)%fl in
          volume <-- latest f "Volume" ;;
          rsi_last <-- latest f "RSI" ;;
          rsi <-- (if negb (Fl.isnan rsi_last)
                   then (r <-- latest f "RSI" ;; Ok (Some r))
                   else Ok None) ;;
          s <-- generate_signal (Some f) ;;
          Ok (Some (Metrics current_price price_change price_change_pct
                      volume rsi s))
      end
  end.

(** a frame of 20 bars that has a [Close] column and nothing else *)
Definition close_only20 : frame :=
  Frame (Z.of_nat <$> seq 0 20) {[ "Close" := Fin <$> climb20 ]}.

(** * Properties of the signal generator *)

Lemma generate_signal_long (data : frame) :
  (20 <= frame_len data)%nat ->
  generate_signal (Some data) =
    (current_price <-- latest data "Close" ;;
     sma_20 <-- latest data "SMA_20" ;;
     rsi <-- latest data "RSI" ;;
     if Fl.isnan sma_20 || Fl.isnan rsi
     then Ok (NEUTRAL, "Calculating...", Fin 50)
     else
       if (current_price >? sma_20)%fl && (rsi <? Fin 70)%fl
       then Ok (BUY, "Price above SMA20, RSI: " +:+ fmt_1f rsi,
                Fl.pymin (Fin 80)
                  (Fin 50 + (current_price - sma_20) / sma_20 * Fin 1000)%fl)
       else if negb (current_price >? sma_20)%fl && (rsi >? Fin 30)%fl
       then Ok (SELL, "Price below SMA20, RSI: " +:+ fmt_1f rsi,
                Fl.pymin (Fin 80)
                  (Fin 50 + (sma_20 - current_price) / sma_20 * Fin 1000)%fl)
       else Ok (NEUTRAL, "Mixed signals, RSI: " +:+ fmt_1f rsi, Fin 40)).
Proof.
  intros Hlen. unfold generate_signal.
  destruct (Nat.ltb_spec (frame_len data) 20) as [Hlt|_]; [lia|].
  destruct (latest data "Close") as [c|]; [|reflexivity].
  destruct (latest data "SMA_20") as [s|]; [|reflexivity].
  destruct (latest data "RSI") as [r|]; [|reflexivity].
  cbn [res_bind].
  destruct (Fl.isnan s || Fl.isnan r); [reflexivity|].
  destruct (c >? s)%fl; reflexivity.
Qed.

Lemma Qltb_lt (a b : Q) : Fl.Qltb a b = true <-> a < b.
Proof.
  unfold Fl.Qltb. rewrite negb_true_iff, <- not_true_iff_false, Qle_bool_iff.
  split; [apply Qnot_le_lt | apply Qlt_not_le].
Qed.

Lemma Qltb_ge (a b : Q) : Fl.Qltb a b = false <-> b <= a.
Proof.
  unfold Fl.Qltb. rewrite negb_false_iff. apply Qle_bool_iff.
Qed.

Lemma Qzerob_eq (a : Q) : Fl.Qzerob a = true <-> a == 0.
Proof. apply Qeq_bool_iff. Qed.

Lemma Qzerob_neq (a : Q) : Fl.Qzerob a = false <-> ~ a == 0.
Proof.
  unfold Fl.Qzerob. rewrite <- not_true_iff_false, Qeq_bool_iff. reflexivity.
Qed.

Lemma Qltb_spec (a b : Q) : reflect (a < b) (Fl.Qltb a b).
Proof.
  destruct (Fl.Qltb a b) eqn:E; constructor.
  - by apply Qltb_lt.
  - apply Qltb_ge in E. by apply Qle_not_lt.
Qed.

Lemma Qzerob_spec (a : Q) : reflect (a == 0) (Fl.Qzerob a).
Proof.
  destruct (Fl.Qzerob a) eqn:E; constructor.
  - by apply Qzerob_eq.
  - by apply Qzerob_neq.
Qed.

Lemma leb_not_gtb (x y : fl) :
  Fl.isnan x = false -> Fl.isnan y = false -> (x <=? y)%fl = negb (x >? y)%fl.
Proof.
  destruct x, y; cbn; try discriminate; try reflexivity.
  intros _ _. unfold Fl.Qltb. by rewrite negb_involutive.
Qed.

(** C1. On a frame of at least 20 bars whose latest close, SMA_20 and RSI
    are defined: when the close is above the SMA_20 and the RSI is below 70 the
    signal is BUY, with the reason "Price above SMA20, RSI: " followed by the
    RSI to one decimal and the confidence [min(80, 50 + (close - sma) / sma *
    1000)]; when the close is at or below the SMA_20 and the RSI is above 30 it
    is SELL, with the mirrored formula; in the remaining cases it is NEUTRAL
    with confidence 40 and the reason "Mixed signals, RSI: ...".  Exactly one
    of the three cases applies. *)
Theorem generate_signal_branches (data : frame) (c s r : fl) :
  (20 <= frame_len data)%nat ->
  latest data "Close" = Ok c ->
  latest data "SMA_20" = Ok s ->
  latest data "RSI" = Ok r ->
  Fl.isnan c = false -> Fl.isnan s = false -> Fl.isnan r = false ->
  let buy := (c >? s)%fl && (r <? Fin 70)%fl in
  let sell := (c <=? s)%fl && (r >? Fin 30)%fl in
  let mixed := (c >? s)%fl && (Fin 70 <=? r)%fl
               || (c <=? s)%fl && (r <=? Fin 30)%fl in
  (buy = true ->
   generate_signal (Some data) =
     Ok (BUY, "Price above SMA20, RSI: " +:+ fmt_1f r,
         Fl.pymin (Fin 80) (Fin 50 + (c - s) / s * Fin 1000)%fl)) /\
  (sell = true ->
   generate_signal (Some data) =
     Ok (SELL, "Price below SMA20, RSI: " +:+ fmt_1f r,
         Fl.pymin (Fin 80) (Fin 50 + (s - c) / s * Fin 1000)%fl)) /\
  (mixed = true ->
   generate_signal (Some data) =
     Ok (NEUTRAL, "Mixed signals, RSI: " +:+ fmt_1f r, Fin 40)) /\
  ((buy = true /\ sell = false /\ mixed = false) \/
   (buy = false /\ sell = true /\ mixed = false) \/
   (buy = false /\ sell = false /\ mixed = true)).
Proof.
  intros Hlen Hc Hs Hr Nc Ns Nr buy sell mixed.
  rewrite (generate_signal_long _ Hlen), Hc, Hs, Hr. cbn [res_bind].
  rewrite Ns, Nr. cbn [orb].
  subst buy sell mixed.
  rewrite (leb_not_gtb c s Nc Ns).
  rewrite (leb_not_gtb (Fin 70) r eq_refl Nr).
  rewrite (leb_not_gtb r (Fin 30) Nr eq_refl).
  unfold Fl.gtb.
  destruct (s <? c)%fl, (r <? Fin 70)%fl, (Fin 30 <? r)%fl; cbn;
    repeat split; try discriminate; auto.
Qed.

Lemma generate_signal_short (data : option frame) :
  too_short data ->
  generate_signal data = Ok (INSUFFICIENT_DATA, "Not enough data", Fin 0).
Proof.
  destruct data as [f|]; [|reflexivity].
  unfold too_short, generate_signal. intros Hlt.
  destruct (Nat.ltb_spec (frame_len f) 20); [reflexivity | lia].
Qed.

(** C2. Without a frame, or on a frame of fewer than 20 bars (an empty one
    included), [generate_signal] returns INSUFFICIENT_DATA with the reason
    "Not enough data" and confidence 0; and it returns INSUFFICIENT_DATA on no
    other input. *)
Theorem generate_signal_insufficient (data : option frame) :
  (too_short data ->
   generate_signal data = Ok (INSUFFICIENT_DATA, "Not enough data", Fin 0)) /\
  (forall (reason : string) (conf : fl),
     generate_signal data = Ok (INSUFFICIENT_DATA, reason, conf) ->
     too_short data).
Proof.
  split; [apply generate_signal_short|].
  - intros reason conf. destruct data as [f|]; cbn [too_short]; [|trivial].
    destruct (Nat.lt_ge_cases (frame_len f) 20) as [Hlt|Hge]; [trivial|].
    rewrite (generate_signal_long _ Hge).
    destruct (latest f "Close") as [c|]; [|discriminate].
    destruct (latest f "SMA_20") as [s|]; [|discriminate].
    destruct (latest f "RSI") as [r|]; [|discriminate].
    cbn [res_bind].
    repeat match goal with |- context [if ?b then _ else _] => destruct b end;
      discriminate.
Qed.

(** Bounds on the confidence formula. *)


Lemma Qdiv_nonneg (a b : Q) : 0 <= a -> 0 < b -> 0 <= a / b.
Proof.
  intros Ha Hb. apply Qle_shift_div_l; [exact Hb|]. by rewrite Qmult_0_l.
Qed.





(** ** Numerically equal cells are treated alike *)

Lemma Qltb_comp (a a' b b' : Q) : a == a' -> b == b' -> Fl.Qltb a b = Fl.Qltb a' b'.
Proof. intros Ha Hb. unfold Fl.Qltb. by rewrite Ha, Hb. Qed.

Lemma Qzerob_comp (a a' : Q) : a == a' -> Fl.Qzerob a = Fl.Qzerob a'.
Proof. intros Ha. unfold Fl.Qzerob. by rewrite Ha. Qed.

Lemma eqv_refl (x : fl) : Fl.eqv x x.
Proof. destruct x; cbn; auto. reflexivity. Qed.



Lemma add_eqv (x x' y y' : fl) :
  Fl.eqv x x' -> Fl.eqv y y' -> Fl.eqv (x + y) (x' + y').
Proof.
  destruct x, x', y, y'; cbn; try tauto. intros -> ->. reflexivity.
Qed.

Lemma sub_eqv (x x' y y' : fl) :
  Fl.eqv x x' -> Fl.eqv y y' -> Fl.eqv (x - y) (x' - y').
Proof.
  destruct x, x', y, y'; cbn; try tauto. intros -> ->. reflexivity.
Qed.



Lemma div_eqv (x x' y y' : fl) :
  Fl.eqv x x' -> Fl.eqv y y' -> Fl.eqv (x / y) (x' / y').
Proof.
  destruct x as [| | |a], x' as [| | |a'], y as [| | |b], y' as [| | |b'];
    cbn [Fl.eqv Fl.div]; try tauto; try reflexivity.
  - intros _ H. rewrite (Qltb_comp b b' 0 0 H (Qeq_refl 0)). apply eqv_refl.
  - intros _ H. rewrite (Qltb_comp b b' 0 0 H (Qeq_refl 0)). apply eqv_refl.
  - intros Ha Hb.
    rewrite (Qzerob_comp _ _ Ha), (Qzerob_comp _ _ Hb),
      (Qltb_comp 0 0 a a' (Qeq_refl 0) Ha).
    destruct (Fl.Qzerob b'); [apply eqv_refl|]. cbn. by rewrite Ha, Hb.
Qed.





(** * The indicator engine, run on a heap *)

Section EngineRun.

Variable fsqrt : Q -> Q.

Lemma len_run (h : heap) (d : loc) (f : frame) :
  h !! d = Some f -> M.len d h = Ok (frame_len f, h).
Proof. intros H. unfold M.len. by rewrite H. Qed.

Lemma getitem_run (h : heap) (d : loc) (f : frame) (k : string) (c : Series.t) :
  h !! d = Some f -> frame_cols f !! k = Some c -> M.getitem d k h = Ok (c, h).
Proof. intros H Hk. unfold M.getitem. by rewrite H, Hk. Qed.

Lemma setitem_run (h : heap) (d : loc) (f : frame) (k : string) (c : Series.t) :
  h !! d = Some f ->
  M.setitem d k c h = Ok (tt, <[d := Frame (frame_index f) (<[k := c]> (frame_cols f))]> h).
Proof. intros H. unfold M.setitem. by rewrite H. Qed.

Lemma bind_run {A B} (m : M.t A) (k : A -> M.t B) (h h' : heap) (a : A) :
  m h = Ok (a, h') -> M.bind m k h = k a h'.
Proof. intros H. unfold M.bind. by rewrite H. Qed.

Lemma calculate_run (h : heap) (d : loc) (f : frame) (close : Series.t) :
  h !! d = Some f ->
  frame_cols f !! "Close" = Some close ->
  (20 <= frame_len f)%nat ->
  calculate_technical_indicators fsqrt (Some d) h =
    Ok (Some d,
        <[d := Frame (frame_index f) (enriched_cols fsqrt close (frame_cols f))]> h).
Proof.
  intros Hd Hclose Hlen. unfold calculate_technical_indicators.
  rewrite (bind_run _ _ _ _ _ (len_run _ _ _ Hd)).
  destruct (Nat.ltb_spec (frame_len f) 20) as [?|_]; [lia|].
  repeat first
    [ erewrite bind_run;
      [| first [ eapply getitem_run; [apply lookup_insert_eq || exact Hd |];
                 cbn [frame_cols]; rewrite ?lookup_insert_ne by done;
                 rewrite ?lookup_insert_eq; first [exact Hclose | reflexivity]
               | eapply setitem_run; apply lookup_insert_eq || exact Hd ] ];
      cbn [frame_cols frame_index]; rewrite ?insert_insert_eq ].
  reflexivity.
Qed.

End EngineRun.

(** * Rolling windows *)

Lemma rolling_length (w : nat) (s : Series.t) :
  length (Rolling.rolling w s) = length s.
Proof. unfold Rolling.rolling. by rewrite length_fmap, length_seq. Qed.

Lemma mean_length (w : nat) (s : Series.t) :
  length (Rolling.mean w s) = length s.
Proof. unfold Rolling.mean. by rewrite length_fmap, rolling_length. Qed.

Lemma std_length (fsqrt : Q -> Q) (w : nat) (s : Series.t) :
  length (Rolling.std fsqrt w s) = length s.
Proof. unfold Rolling.std. by rewrite length_fmap, rolling_length. Qed.

Lemma rolling_lookup (w : nat) (s : Series.t) (i : nat) :
  (i < length s)%nat ->
  Rolling.rolling w s !! i = Some (Rolling.window_at w s i).
Proof.
  intros Hi. unfold Rolling.rolling.
  rewrite list_lookup_fmap, lookup_seq_lt by exact Hi. reflexivity.
Qed.

Lemma mean_lookup (w : nat) (s : Series.t) (i : nat) :
  (i < length s)%nat ->
  Rolling.mean w s !! i = Some (Rolling.win_mean w (Rolling.window_at w s i)).
Proof.
  intros Hi. unfold Rolling.mean.
  by rewrite list_lookup_fmap, rolling_lookup.
Qed.

Lemma std_lookup (fsqrt : Q -> Q) (w : nat) (s : Series.t) (i : nat) :
  (i < length s)%nat ->
  Rolling.std fsqrt w s !! i =
    Some (Rolling.zsqrt fsqrt (Rolling.win_var w (Rolling.window_at w s i))).
Proof.
  intros Hi. unfold Rolling.std.
  by rewrite list_lookup_fmap, rolling_lookup.
Qed.

Lemma window_at_length (w : nat) (s : Series.t) (i : nat) :
  (i < length s)%nat ->
  length (Rolling.window_at w s i) = Nat.min w (S i).
Proof.
  intros Hi. unfold Rolling.window_at.
  rewrite length_take, length_drop. lia.
Qed.

Lemma observations_length (win : list fl) :
  (length (Rolling.observations win) <= length win)%nat.
Proof.
  induction win as [|[| | |q] tl IH]; cbn; lia.
Qed.

Lemma observations_fin (l : list Q) : Rolling.observations (Fin <$> l) = l.
Proof. induction l as [|q l IH]; cbn; [reflexivity | by rewrite IH]. Qed.

(** Too few cells in the window: the aggregate is undefined. *)
Lemma win_mean_short (minp : nat) (win : list fl) :
  (length win < minp)%nat -> Rolling.win_mean minp win = NaN.
Proof.
  intros H. unfold Rolling.win_mean.
  pose proof (observations_length win).
  destruct (Nat.leb_spec minp (length (Rolling.observations win))); [lia|reflexivity].
Qed.

Lemma win_var_short (minp : nat) (win : list fl) :
  (length win < minp)%nat -> Rolling.win_var minp win = NaN.
Proof.
  intros H. unfold Rolling.win_var.
  pose proof (observations_length win).
  destruct (Nat.leb_spec minp (length (Rolling.observations win))); [lia|reflexivity].
Qed.

Lemma mean_undefined_before (w : nat) (s : Series.t) :
  undefined_before (w - 1) (Rolling.mean w s).
Proof.
  intros i Hi Hlen. rewrite mean_length in Hlen.
  rewrite mean_lookup by exact Hlen. f_equal.
  apply win_mean_short. rewrite window_at_length by exact Hlen. lia.
Qed.

Lemma std_undefined_before (fsqrt : Q -> Q) (w : nat) (s : Series.t) :
  undefined_before (w - 1) (Rolling.std fsqrt w s).
Proof.
  intros i Hi Hlen. rewrite std_length in Hlen.
  rewrite std_lookup by exact Hlen. f_equal.
  rewrite win_var_short; [reflexivity|].
  rewrite window_at_length by exact Hlen. lia.
Qed.

(** A slice by [take] and [drop] lists the cells position by position. *)
Lemma take_drop_seq (l : list Q) (n k : nat) :
  (n + k <= length l)%nat ->
  take k (drop n l) = nth_close l <$> seq n k.
Proof.
  intros H. apply list_eq. intros j.
  rewrite list_lookup_fmap.
  destruct (Nat.lt_ge_cases j k) as [Hj|Hj].
  - rewrite lookup_take_lt, lookup_drop, lookup_seq_lt by lia. cbn.
    unfold nth_close.
    destruct (lookup_lt_is_Some_2 l (n + j) ltac:(lia)) as [x Hx].
    by rewrite Hx.
  - rewrite lookup_take_ge, lookup_seq_ge by lia. reflexivity.
Qed.

Lemma window_at_fin (w : nat) (closes : list Q) (i : nat) :
  (i < length closes)%nat -> (w <= S i)%nat ->
  Rolling.window_at w (Fin <$> closes) i =
    Fin <$> (nth_close closes <$> seq (S i - w) w).
Proof.
  intros Hi Hw. unfold Rolling.window_at.
  rewrite <- fmap_drop, <- fmap_take. f_equal.
  replace (Nat.min w (S i)) with w by lia.
  apply take_drop_seq. lia.
Qed.

Lemma Qzerob_inject_nat (n : nat) : Fl.Qzerob (inject_Z (Z.of_nat n)) = Nat.eqb n 0.
Proof.
  destruct n as [|n]; [reflexivity|].
  apply Qzerob_neq. unfold Qeq. cbn. lia.
Qed.

Lemma win_mean_fin (w : nat) (l : list Q) :
  length l = w ->
  Rolling.win_mean w (Fin <$> l) =
    (Fin (Rolling.Qsum l) / Fin (inject_Z (Z.of_nat w)))%fl.
Proof.
  intros <-. unfold Rolling.win_mean, Rolling.Qmean, Rolling.count.
  rewrite observations_fin, Nat.leb_refl. cbn [andb Fl.div].
  rewrite Qzerob_inject_nat.
  destruct l as [|q l]; reflexivity.
Qed.

(** The moving average of a series of defined closes. *)
Lemma mean_fin_lookup (w : nat) (closes : list Q) (i : nat) :
  (i < length closes)%nat ->
  Rolling.mean w (Fin <$> closes) !! i =
    Some (if (S i <? w)%nat then NaN else trailing_mean closes w i).
Proof.
  intros Hi.
  rewrite mean_lookup by (by rewrite length_fmap). f_equal.
  destruct (Nat.ltb_spec (S i) w) as [Hlt|Hge].
  - apply win_mean_short.
    rewrite window_at_length by (by rewrite length_fmap). lia.
  - rewrite window_at_fin by assumption.
    apply win_mean_fin. by rewrite length_fmap, length_seq.
Qed.


(** ** The float64 rolling mean: its length and its undefined cells *)











(** For a window of at least one bar the trailing mean is the rational
    sum divided by [w]. *)
Lemma trailing_mean_pos (closes : list Q) (w i : nat) :
  (0 < w)%nat ->
  trailing_mean closes w i =
    Fin (Rolling.Qsum (nth_close closes <$> seq (S i - w) w)
         / inject_Z (Z.of_nat w)).
Proof.
  intros Hw. unfold trailing_mean. cbn [Fl.div].
  rewrite Qzerob_inject_nat.
  by destruct w; [lia|].
Qed.

(** * The relative strength index *)

Lemma observations_elem (win : list fl) (q : Q) :
  q ∈ Rolling.observations win -> Fin q ∈ win.
Proof.
  induction win as [|x tl IH]; cbn; [by rewrite elem_of_nil|].
  destruct x; rewrite ?elem_of_cons; intros H;
    try (right; by apply IH).
  destruct H as [->|H]; [by left | right; by apply IH].
Qed.

Lemma window_at_elem (w : nat) (s : Series.t) (i : nat) (x : fl) :
  x ∈ Rolling.window_at w s i -> x ∈ s.
Proof.
  unfold Rolling.window_at. intros H.
  apply elem_of_take in H as (j & H & _).
  rewrite lookup_drop in H. by eapply list_elem_of_lookup_2.
Qed.

Lemma Qsum_nonneg (l : list Q) : Forall (fun q => 0 <= q) l -> 0 <= Rolling.Qsum l.
Proof.
  induction 1 as [|q l Hq _ IH]; [discriminate|].
  change (0 <= q + Rolling.Qsum l). lra.
Qed.

Lemma count_pos (l : list Q) : (0 < length l)%nat -> 0 < Rolling.count l.
Proof.
  intros H. unfold Rolling.count, Qlt. cbn. lia.
Qed.

(** The rolling mean of cells that are not negative is not negative. *)
Lemma win_mean_nonneg (minp : nat) (win : list fl) :
  (forall q, Fin q ∈ win -> 0 <= q) ->
  nonneg_cell (Rolling.win_mean minp win).
Proof.
  intros Hwin. unfold Rolling.win_mean.
  destruct (Nat.leb_spec minp (length (Rolling.observations win))) as [_|_];
    [|by left].
  destruct (Nat.ltb_spec 0 (length (Rolling.observations win))) as [Hpos|_];
    [|by left].
  right. eexists; split; [reflexivity|].
  apply Qdiv_nonneg; [|by apply count_pos].
  apply Qsum_nonneg, Forall_forall. intros q Hq.
  by apply Hwin, observations_elem.
Qed.

Lemma mean_nonneg (w : nat) (s : Series.t) (i : nat) (x : fl) :
  (forall q, Fin q ∈ s -> 0 <= q) ->
  Rolling.mean w s !! i = Some x -> nonneg_cell x.
Proof.
  intros Hs Hx.
  assert (Hi : (i < length s)%nat).
  { apply lookup_lt_Some in Hx. by rewrite mean_length in Hx. }
  rewrite mean_lookup in Hx by exact Hi. injection Hx as <-.
  apply win_mean_nonneg. intros q Hq. by eapply Hs, window_at_elem.
Qed.

Lemma gain_nonneg (close : Series.t) (i : nat) (g : fl) :
  Locals.gain close !! i = Some g -> nonneg_cell g.
Proof.
  apply mean_nonneg. intros q Hq.
  unfold Series.where_ in Hq. apply list_elem_of_fmap in Hq as (y & Hy & _).
  destruct (y >? Fin 0)%fl eqn:E.
  - subst y. cbn in E. apply Qltb_lt in E. by apply Qlt_le_weak.
  - injection Hy as ->. discriminate.
Qed.

Lemma loss_nonneg (close : Series.t) (i : nat) (l : fl) :
  Locals.loss close !! i = Some l -> nonneg_cell l.
Proof.
  apply mean_nonneg. intros q Hq.
  unfold Series.neg, Series.where_ in Hq.
  apply list_elem_of_fmap in Hq as (y & Hy & Hin).
  apply list_elem_of_fmap in Hin as (z & -> & _).
  destruct (z <? Fin 0)%fl eqn:E.
  - destruct z as [| | |a]; try discriminate.
    injection Hy as ->. cbn in E. apply Qltb_lt in E. lra.
  - injection Hy as ->. discriminate.
Qed.

(** The cells of the RSI column, from the cells of [gain] and [loss]. *)
Lemma rsi_lookup (close : Series.t) (i : nat) (r : fl) :
  Locals.rsi close !! i = Some r ->
  exists g l : fl,
    Locals.gain close !! i = Some g /\ Locals.loss close !! i = Some l /\
    r = rsi_cell g l.
Proof.
  unfold Locals.rsi, Locals.rs, Series.rsub_scalar, Series.rdiv_scalar,
    Series.radd_scalar, Series.div.
  rewrite !list_lookup_fmap, lookup_zip_with.
  destruct (Locals.gain close !! i) as [g|]; [|discriminate].
  destruct (Locals.loss close !! i) as [l|]; [|discriminate].
  cbn. intros [= <-]. by exists g, l.
Qed.

Lemma rsi_cell_props (g l : fl) :
  nonneg_cell g -> nonneg_cell l ->
  (Fl.isnan (rsi_cell g l) = false ->
     (Fin 0 <=? rsi_cell g l)%fl = true /\ (rsi_cell g l <=? Fin 100)%fl = true) /\
  (Fl.eqv (rsi_cell g l) (Fin 100) <->
     Fl.eqv l (Fin 0) /\ (Fin 0 <? g)%fl = true) /\
  (Fl.eqv g (Fin 0) -> Fl.eqv l (Fin 0) -> rsi_cell g l = NaN).
Proof.
  intros [->|(a & -> & Ha)] [->|(b & -> & Hb)]; unfold rsi_cell;
    try (cbn; intuition discriminate).
  cbn [Fl.div].
  destruct (Qzerob_spec b) as [Hb0|Hb0].
  - destruct (Qzerob_spec a) as [Ha0|Ha0].
    + cbn. repeat split; try discriminate; try tauto.
      intros [_ H]. apply Qltb_lt in H. lra.
    + assert (Hlt : 0 < a).
      { apply Qle_lteq in Ha as [Ha|Ha]; [exact Ha|]. destruct Ha0. by symmetry. }
      destruct (Qltb_spec 0 a) as [_|Hn]; [|by destruct Hn].
      cbn. split; [intros _; split; reflexivity|].
      split; [|intros H; by destruct Ha0].
      split; [intros _; split; [exact Hb0 | by apply Qltb_lt] | intros _; reflexivity].
  - assert (Hlt : 0 < b).
    { apply Qle_lteq in Hb as [Hb|Hb]; [exact Hb|]. destruct Hb0. by symmetry. }
    assert (Hx : 0 <= a / b) by (by apply Qdiv_nonneg).
    cbn [Fl.add Fl.div].
    destruct (Qzerob_spec (1 + a / b)) as [H0|_]; [lra|].
    assert (Hpos : 0 < 1 + a / b) by lra.
    assert (H1 : 0 < 100 / (1 + a / b)).
    { apply Qlt_shift_div_l; [exact Hpos|]. lra. }
    assert (H2 : 100 / (1 + a / b) <= 100).
    { apply Qle_shift_div_r; [exact Hpos|]. lra. }
    cbn. split; [intros _; split; apply Qle_bool_iff; lra|].
    split; [|intros _ H; by destruct Hb0].
    split; [intros H; lra | intros [H _]; by destruct Hb0].
Qed.

(** * The columns the engine writes *)

Section Enriched.

Variable fsqrt : Q -> Q.
Variable close : Series.t.
Variable cols : gmap string Series.t.

Lemma enriched_sma_20 :
  enriched_cols fsqrt close cols !! "SMA_20" = Some (Rolling.mean 20 close).
Proof. unfold enriched_cols. by simplify_map_eq. Qed.

Lemma enriched_sma_50 :
  enriched_cols fsqrt close cols !! "SMA_50" = Some (Rolling.mean 50 close).
Proof. unfold enriched_cols. by simplify_map_eq. Qed.

Lemma enriched_rsi :
  enriched_cols fsqrt close cols !! "RSI" = Some (Locals.rsi close).
Proof. unfold enriched_cols. by simplify_map_eq. Qed.

Lemma enriched_bb_middle :
  enriched_cols fsqrt close cols !! "BB_Middle" = Some (Locals.bb_middle close).
Proof. unfold enriched_cols. by simplify_map_eq. Qed.

Lemma enriched_bb_upper :
  enriched_cols fsqrt close cols !! "BB_Upper" = Some (Locals.bb_upper fsqrt close).
Proof. unfold enriched_cols. by simplify_map_eq. Qed.

Lemma enriched_bb_lower :
  enriched_cols fsqrt close cols !! "BB_Lower" = Some (Locals.bb_lower fsqrt close).
Proof. unfold enriched_cols. by simplify_map_eq. Qed.

Lemma enriched_other (k : string) :
  k ∉ indicator_names -> enriched_cols fsqrt close cols !! k = cols !! k.
Proof.
  unfold indicator_names. rewrite !not_elem_of_cons. intros (?&?&?&?&?&?&_).
  unfold enriched_cols. by rewrite !lookup_insert_ne.
Qed.

End Enriched.

Lemma rsi_length (close : Series.t) : length (Locals.rsi close) = length close.
Proof.
  unfold Locals.rsi, Locals.rs, Locals.gain, Locals.loss, Locals.delta,
    Series.rsub_scalar, Series.rdiv_scalar, Series.radd_scalar, Series.div,
    Series.neg, Series.where_.
  rewrite !length_fmap, length_zip_with, !mean_length, !length_fmap.
  assert (length (Series.diff close) = length close).
  { destruct close as [|x tl]; [reflexivity|]. cbn.
    rewrite length_zip_with. cbn. lia. }
  lia.
Qed.

(** C7. On every frame the engine accepts the RSI column has one cell for
    every bar, and the cell [r] at a position is [100 - 100 / (1 + g / l)]
    for the cells [g] and [l] of the trailing average gain and loss at that
    position.  When [g] and [l] are not negative and [r] is defined, [r]
    lies in [0, 100]; when [l] is 0 and [g] is positive, [r] is 100; and
    when [g] and [l] are both 0, [r] is undefined (NaN). *)
Theorem rsi_range (fsqrt : Q -> Q) (h : heap) (d : loc) (f : frame) (close : Series.t) :
  h !! d = Some f ->
  frame_cols f !! "Close" = Some close ->
  (20 <= frame_len f)%nat ->
  exists (h' : heap) (f' : frame) (rsi : Series.t),
    calculate_technical_indicators fsqrt (Some d) h = Ok (Some d, h') /\
    h' !! d = Some f' /\
    frame_cols f' !! "RSI" = Some rsi /\
    length rsi = length close /\
    forall i : nat, (i < length close)%nat ->
      exists g l r : fl,
        Locals.gain close !! i = Some g /\
        Locals.loss close !! i = Some l /\
        rsi !! i = Some r /\
        r = rsi_cell g l /\
        ((Fin 0 <=? g)%fl = true -> (Fin 0 <=? l)%fl = true ->
         Fl.isnan r = false ->
           (Fin 0 <=? r)%fl = true /\ (r <=? Fin 100)%fl = true) /\
        (Fl.eqv l (Fin 0) -> (Fin 0 <? g)%fl = true -> Fl.eqv r (Fin 100)) /\
        (Fl.eqv g (Fin 0) -> Fl.eqv l (Fin 0) -> r = NaN).
Proof.
  intros Hd Hc Hlen. eexists _, _, _.
  split; [by apply calculate_run|].
  split; [apply lookup_insert_eq|].
  split; [apply enriched_rsi|].
  split; [apply rsi_length|].
  intros i Hi.
  destruct (lookup_lt_is_Some_2 (Locals.rsi close) i) as [r Hr];
    [by rewrite rsi_length|].
  destruct (rsi_lookup _ _ _ Hr) as (g & l & Hg & Hl & ->).
  exists g, l, (rsi_cell g l).
  destruct (rsi_cell_props g l) as (Hrange & Hhundred & Hnan);
    [by eapply gain_nonneg | by eapply loss_nonneg |].
  repeat (split; [assumption|]).
  split; [reflexivity|].
  split; [intros _ _; exact Hrange|].
  split; [intros H1 H2; apply Hhundred; by split | exact Hnan].
Qed.

(** * Bollinger bands *)

Lemma window_at_lookup (w : nat) (s : Series.t) (i : nat) (x : fl) :
  x ∈ Rolling.window_at w s i ->
  exists j : nat, (S i - w <= j)%nat /\ (j <= i)%nat /\ s !! j = Some x.
Proof.
  unfold Rolling.window_at. intros H.
  apply elem_of_take in H as (j & H & Hj).
  rewrite lookup_drop in H. exists (S i - w + j)%nat.
  repeat split; [lia | lia | exact H].
Qed.

Lemma observations_all_fin (win : list fl) :
  (forall x, x ∈ win -> exists q, x = Fin q) ->
  length (Rolling.observations win) = length win.
Proof.
  induction win as [|x tl IH]; intros H; [reflexivity|].
  destruct (H x) as [q ->]; [by left|]. cbn. f_equal.
  apply IH. intros y Hy. apply H. by right.
Qed.

Lemma Qsum_const (c : Q) (l : list Q) :
  Forall (fun q => q == c) l -> Rolling.Qsum l == c * Rolling.count l.
Proof.
  induction 1 as [|q l Hq _ IH].
  - unfold Rolling.count. cbn. ring.
  - change (q + Rolling.Qsum l == c * Rolling.count (q :: l)).
    unfold Rolling.count in *. cbn [length].
    rewrite Nat2Z.inj_succ, <- Z.add_1_r, inject_Z_plus.
    rewrite IH, Hq. ring.
Qed.

Lemma Qmean_const (c : Q) (l : list Q) :
  Forall (fun q => q == c) l -> (0 < length l)%nat -> Rolling.Qmean l == c.
Proof.
  intros H Hlen. unfold Rolling.Qmean. rewrite (Qsum_const c l H).
  pose proof (count_pos l Hlen). field. lra.
Qed.

Lemma ssqdm_const (c : Q) (l : list Q) :
  Forall (fun q => q == c) l -> (0 < length l)%nat -> Rolling.ssqdm l == 0.
Proof.
  intros H Hlen. unfold Rolling.ssqdm.
  pose proof (Qmean_const c l H Hlen) as Hm.
  rewrite (Qsum_const 0); [ring|].
  apply Forall_fmap. eapply Forall_impl; [exact H|].
  intros q Hq. cbn. rewrite Hq, Hm. ring.
Qed.

Section Bands.

Variable fsqrt : Q -> Q.
Hypothesis fsqrt_nonneg : forall x : Q, 0 <= fsqrt x.
Hypothesis fsqrt_zero : forall x : Q, x == 0 -> fsqrt x == 0.

Lemma zsqrt_nonneg (x : fl) :
  Fl.isinf x = false -> nonneg_cell (Rolling.zsqrt fsqrt x).
Proof.
  destruct x as [| | |q]; cbn; try discriminate; intros _; [by left|].
  right. destruct (Fl.Qltb q 0); eexists; (split; [reflexivity|]);
    [discriminate | apply fsqrt_nonneg].
Qed.

Lemma win_var_not_inf (minp : nat) (win : list fl) :
  Fl.isinf (Rolling.win_var minp win) = false.
Proof. unfold Rolling.win_var. by destruct (_ && _). Qed.

Lemma win_mean_cases (minp : nat) (win : list fl) :
  Rolling.win_mean minp win = NaN \/ exists q, Rolling.win_mean minp win = Fin q.
Proof. unfold Rolling.win_mean. destruct (_ && _); eauto. Qed.

(** one cell of each band, from the window that ends at its position *)
Lemma bands_lookup (close : Series.t) (i : nat) (u m l : fl) :
  Locals.bb_upper fsqrt close !! i = Some u ->
  Locals.bb_middle close !! i = Some m ->
  Locals.bb_lower fsqrt close !! i = Some l ->
  let win := Rolling.window_at 20 close i in
  let sd := Rolling.zsqrt fsqrt (Rolling.win_var 20 win) in
  m = Rolling.win_mean 20 win /\
  u = (m + sd * Fin 2)%fl /\ l = (m - sd * Fin 2)%fl.
Proof.
  intros Hu Hm Hl.
  assert (Hi : (i < length close)%nat).
  { apply lookup_lt_Some in Hm. unfold Locals.bb_middle in Hm.
    by rewrite mean_length in Hm. }
  unfold Locals.bb_upper, Locals.bb_lower, Locals.bb_std, Series.add,
    Series.sub, Series.mul_scalar in Hu, Hl.
  rewrite lookup_zip_with, list_lookup_fmap, Hm, std_lookup in Hu, Hl by exact Hi.
  unfold Locals.bb_middle in Hm. rewrite mean_lookup in Hm by exact Hi.
  cbn in Hu, Hl. injection Hm as <-. injection Hu as <-. injection Hl as <-.
  by repeat split.
Qed.

Lemma bands_ordered (m sd : fl) :
  nonneg_cell sd ->
  Fl.isnan (m + sd * Fin 2)%fl = false ->
  Fl.isnan m = false ->
  Fl.isnan (m - sd * Fin 2)%fl = false ->
  ((m - sd * Fin 2) <=? m)%fl = true /\ (m <=? (m + sd * Fin 2))%fl = true.
Proof.
  intros [->|(s & -> & Hs)].
  - destruct m; cbn; discriminate.
  - destruct m as [| | |qm]; cbn; try discriminate; intros _ _ _;
      split; try reflexivity; apply Qle_bool_iff; lra.
Qed.

Lemma bands_equal (c : Q) (win : list fl) :
  (forall x, x ∈ win -> exists q, x = Fin q /\ q == c) ->
  let m := Rolling.win_mean 20 win in
  let sd := Rolling.zsqrt fsqrt (Rolling.win_var 20 win) in
  Fl.eqv (m + sd * Fin 2)%fl m /\ Fl.eqv m (m - sd * Fin 2)%fl /\
  ((20 <= length win)%nat -> Fl.eqv m (Fin c)).
Proof.
  intros Hwin m sd.
  assert (Hlen : length (Rolling.observations win) = length win).
  { apply observations_all_fin. intros x Hx.
    destruct (Hwin x Hx) as (q & -> & _). eauto. }
  assert (Hall : Forall (fun q => q == c) (Rolling.observations win)).
  { apply Forall_forall. intros q Hq.
    destruct (Hwin _ (observations_elem _ _ Hq)) as (q' & [= ->] & Hc). exact Hc. }
  subst m sd. unfold Rolling.win_mean, Rolling.win_var. rewrite Hlen.
  destruct (Nat.leb_spec 20 (length win)) as [Hge|Hlt]; cbn [andb].
  2:{ cbn. repeat split; auto. lia. }
  destruct (Nat.ltb_spec 0 (length win)) as [_|?]; [|lia].
  destruct (Nat.ltb_spec 1 (length win)) as [_|?]; [|lia].
  assert (Hpos : (0 < length (Rolling.observations win))%nat) by lia.
  pose proof (Qmean_const c _ Hall Hpos) as Hm.
  pose proof (ssqdm_const c _ Hall Hpos) as Hss.
  assert (Hv : Rolling.ssqdm (Rolling.observations win)
               / (Rolling.count (Rolling.observations win) - 1) == 0).
  { rewrite Hss. unfold Qdiv. ring. }
  cbn [Rolling.zsqrt].
  destruct (Qltb_spec (Rolling.ssqdm (Rolling.observations win)
               / (Rolling.count (Rolling.observations win) - 1)) 0) as [Hneg|_].
  { rewrite Hv in Hneg. by apply Qlt_irrefl in Hneg. }
  pose proof (fsqrt_zero _ Hv) as Hs.
  cbn. rewrite Hs. repeat split; [ring | ring | intros _; exact Hm].
Qed.

End Bands.

(** C8. On every frame the engine accepts, at every position where the three
    bands are defined, [BB_Lower <= BB_Middle <= BB_Upper]; and where all the
    closes of the trailing window (positions [i - 19 .. i]) are equal, the three
    bands are equal, and equal to that close once the window is full.  The
    square root is any function that is nowhere negative and is 0 at 0. *)
Theorem bollinger_bands_ordered (fsqrt : Q -> Q)
    (fsqrt_nonneg : forall x : Q, 0 <= fsqrt x)
    (fsqrt_zero : forall x : Q, x == 0 -> fsqrt x == 0)
    (h : heap) (d : loc) (f : frame) (close : Series.t) :
  h !! d = Some f ->
  frame_cols f !! "Close" = Some close ->
  (20 <= frame_len f)%nat ->
  exists (h' : heap) (f' : frame) (upper middle lower : Series.t),
    calculate_technical_indicators fsqrt (Some d) h = Ok (Some d, h') /\
    h' !! d = Some f' /\
    frame_cols f' !! "BB_Upper" = Some upper /\
    frame_cols f' !! "BB_Middle" = Some middle /\
    frame_cols f' !! "BB_Lower" = Some lower /\
    forall (i : nat) (u m l : fl),
      upper !! i = Some u -> middle !! i = Some m -> lower !! i = Some l ->
      (Fl.isnan u = false -> Fl.isnan m = false -> Fl.isnan l = false ->
         (l <=? m)%fl = true /\ (m <=? u)%fl = true) /\
      (forall c : Q,
         (forall j : nat, (i - 19 <= j)%nat -> (j <= i)%nat ->
            exists q : Q, close !! j = Some (Fin q) /\ q == c) ->
         Fl.eqv u m /\ Fl.eqv m l /\ ((19 <= i)%nat -> Fl.eqv m (Fin c))).
Proof.
  intros Hd Hc Hlen. eexists _, _, _, _, _.
  split; [by apply calculate_run|].
  split; [apply lookup_insert_eq|].
  split; [apply enriched_bb_upper|].
  split; [apply enriched_bb_middle|].
  split; [apply enriched_bb_lower|].
  intros i u m l Hu Hm Hl.
  assert (Hi : (i < length close)%nat).
  { apply lookup_lt_Some in Hm. unfold Locals.bb_middle in Hm.
    by rewrite mean_length in Hm. }
  destruct (bands_lookup fsqrt close i u m l Hu Hm Hl) as (Em & -> & ->).
  split.
  - intros Nu Nm Nl.
    apply bands_ordered; try assumption.
    apply zsqrt_nonneg; [exact fsqrt_nonneg | apply win_var_not_inf].
  - intros c Hall. rewrite Em.
    destruct (bands_equal fsqrt fsqrt_zero c (Rolling.window_at 20 close i))
      as (E1 & E2 & E3).
    { intros x Hx. apply window_at_lookup in Hx as (j & Hj1 & Hj2 & Hx).
      destruct (Hall j ltac:(lia) Hj2) as (q & Hq & Hqc).
      rewrite Hq in Hx. injection Hx as <-. eauto. }
    split; [exact E1|]. split; [exact E2|].
    intros Hi19. apply E3. rewrite window_at_length by exact Hi. lia.
Qed.

(** * The engine's result and its effect on the heap *)

Lemma calculate_none (fsqrt : Q -> Q) (h : heap) :
  calculate_technical_indicators fsqrt None h = Ok (None, h).
Proof. reflexivity. Qed.

Lemma calculate_short (fsqrt : Q -> Q) (h : heap) (d : loc) (f : frame) :
  h !! d = Some f -> (frame_len f < 20)%nat ->
  calculate_technical_indicators fsqrt (Some d) h = Ok (None, h).
Proof.
  intros Hd Hlen. unfold calculate_technical_indicators.
  rewrite (bind_run _ _ _ _ _ (len_run _ _ _ Hd)).
  by destruct (Nat.ltb_spec (frame_len f) 20); [|lia].
Qed.

Lemma rsi_undefined_before (close : Series.t) :
  undefined_before 13 (Locals.rsi close).
Proof.
  intros i Hi Hlen.
  destruct (lookup_lt_is_Some_2 _ _ Hlen) as [r Hr]. rewrite Hr.
  destruct (rsi_lookup _ _ _ Hr) as (g & l & Hg & _ & ->).
  assert (Hi' : (i < length (Locals.gain close))%nat)
    by (by eapply lookup_lt_Some).
  unfold Locals.gain in Hg, Hi'.
  rewrite (mean_undefined_before 14 _ i ltac:(lia) Hi') in Hg.
  by injection Hg as <-.
Qed.

Lemma bb_upper_length (fsqrt : Q -> Q) (close : Series.t) :
  length (Locals.bb_upper fsqrt close) = length close.
Proof.
  unfold Locals.bb_upper, Locals.bb_middle, Locals.bb_std, Series.add,
    Series.mul_scalar.
  rewrite length_zip_with, length_fmap, mean_length, std_length. lia.
Qed.

Lemma bb_lower_length (fsqrt : Q -> Q) (close : Series.t) :
  length (Locals.bb_lower fsqrt close) = length close.
Proof.
  unfold Locals.bb_lower, Locals.bb_middle, Locals.bb_std, Series.sub,
    Series.mul_scalar.
  rewrite length_zip_with, length_fmap, mean_length, std_length. lia.
Qed.

Lemma bb_upper_undefined_before (fsqrt : Q -> Q) (close : Series.t) :
  undefined_before 19 (Locals.bb_upper fsqrt close).
Proof.
  intros i Hi Hlen. rewrite bb_upper_length in Hlen.
  unfold Locals.bb_upper, Locals.bb_middle, Series.add.
  rewrite lookup_zip_with, (mean_undefined_before 20 close i) by
    (rewrite ?mean_length; lia).
  cbn. unfold Locals.bb_std, Series.mul_scalar.
  by rewrite list_lookup_fmap, std_lookup.
Qed.

Lemma bb_lower_undefined_before (fsqrt : Q -> Q) (close : Series.t) :
  undefined_before 19 (Locals.bb_lower fsqrt close).
Proof.
  intros i Hi Hlen. rewrite bb_lower_length in Hlen.
  unfold Locals.bb_lower, Locals.bb_middle, Series.sub.
  rewrite lookup_zip_with, (mean_undefined_before 20 close i) by
    (rewrite ?mean_length; lia).
  cbn. unfold Locals.bb_std, Series.mul_scalar.
  by rewrite list_lookup_fmap, std_lookup.
Qed.

(** C4, as the code has it.  Without a frame, or on a frame of fewer than 20
    bars, the engine returns [None] and changes nothing.  On a well-formed
    frame of at least 20 bars with a [Close] column it does not raise: it
    returns the frame, with as many bars as before and every column of that
    length, and in it [SMA_20] and the three bands are undefined (NaN) before
    position 19, [SMA_50] before position 49 and [RSI] before position 13. *)
Theorem engine_result (fsqrt : Q -> Q) (h : heap) (d : loc) (f : frame) :
  h !! d = Some f ->
  calculate_technical_indicators fsqrt None h = Ok (None, h) /\
  ((frame_len f < 20)%nat ->
   calculate_technical_indicators fsqrt (Some d) h = Ok (None, h)) /\
  (forall close : Series.t,
     (20 <= frame_len f)%nat -> frame_wf f ->
     frame_cols f !! "Close" = Some close ->
     exists (h' : heap) (f' : frame),
       calculate_technical_indicators fsqrt (Some d) h = Ok (Some d, h') /\
       h' !! d = Some f' /\
       frame_len f' = frame_len f /\
       frame_wf f' /\
       exists sma_20 sma_50 rsi bb_middle bb_upper bb_lower : Series.t,
         frame_cols f' !! "SMA_20" = Some sma_20 /\
         frame_cols f' !! "SMA_50" = Some sma_50 /\
         frame_cols f' !! "RSI" = Some rsi /\
         frame_cols f' !! "BB_Middle" = Some bb_middle /\
         frame_cols f' !! "BB_Upper" = Some bb_upper /\
         frame_cols f' !! "BB_Lower" = Some bb_lower /\
         undefined_before 19 sma_20 /\
         undefined_before 49 sma_50 /\
         undefined_before 13 rsi /\
         undefined_before 19 bb_middle /\
         undefined_before 19 bb_upper /\
         undefined_before 19 bb_lower).
Proof.
  intros Hd. split; [reflexivity|]. split; [by apply calculate_short|].
  intros close Hlen Hwf Hc. eexists _, _.
  split; [by apply calculate_run|].
  split; [apply lookup_insert_eq|].
  split; [reflexivity|].
  assert (Hcl : length close = frame_len f) by (by eapply Hwf).
  split.
  - intros k c. unfold frame_len. cbn [frame_cols frame_index].
    fold (frame_len f). rewrite <- Hcl.
    destruct (decide (k ∈ indicator_names)) as [Hin|Hout].
    + unfold indicator_names in Hin.
      repeat (apply elem_of_cons in Hin as [->|Hin]);
        [ rewrite enriched_sma_20 | rewrite enriched_sma_50
        | rewrite enriched_rsi | rewrite enriched_bb_middle
        | rewrite enriched_bb_upper | rewrite enriched_bb_lower
        | by apply elem_of_nil in Hin ];
        intros [= <-];
        [ apply mean_length | apply mean_length | apply rsi_length
        | apply mean_length | apply bb_upper_length | apply bb_lower_length ].
    + rewrite enriched_other by exact Hout. rewrite Hcl. apply Hwf.
  - eexists _, _, _, _, _, _. cbn [frame_cols].
    split; [apply enriched_sma_20|]. split; [apply enriched_sma_50|].
    split; [apply enriched_rsi|]. split; [apply enriched_bb_middle|].
    split; [apply enriched_bb_upper|]. split; [apply enriched_bb_lower|].
    split; [apply (mean_undefined_before 20)|].
    split; [apply (mean_undefined_before 50)|].
    split; [apply rsi_undefined_before|].
    split; [apply (mean_undefined_before 20)|].
    split; [apply bb_upper_undefined_before | apply bb_lower_undefined_before].
Qed.

(** C9, as the code has it.  On a frame of at least 20 bars the engine
    writes the six indicator columns into the frame it was given and returns
    that same reference; the bars and every other column of the frame keep
    their values, and no other object of the heap changes.  On a shorter frame
    the heap is left as it was. *)
Theorem engine_updates_in_place (fsqrt : Q -> Q) (h : heap) (d : loc) (f : frame) :
  h !! d = Some f ->
  ((frame_len f < 20)%nat ->
   calculate_technical_indicators fsqrt (Some d) h = Ok (None, h)) /\
  (forall close : Series.t,
     (20 <= frame_len f)%nat ->
     frame_cols f !! "Close" = Some close ->
     exists (h' : heap) (f' : frame),
       calculate_technical_indicators fsqrt (Some d) h = Ok (Some d, h') /\
       h' !! d = Some f' /\
       (forall d' : loc, d' <> d -> h' !! d' = h !! d') /\
       frame_index f' = frame_index f /\
       (forall k : string, k ∉ indicator_names ->
          frame_cols f' !! k = frame_cols f !! k) /\
       (forall k : string, k ∈ indicator_names -> is_Some (frame_cols f' !! k))).
Proof.
  intros Hd. split; [by apply calculate_short|].
  intros close Hlen Hc. eexists _, _.
  split; [by apply calculate_run|].
  split; [apply lookup_insert_eq|].
  split; [intros d' Hne; by apply lookup_insert_ne|].
  split; [reflexivity|].
  split; [intros k Hk; by apply enriched_other|].
  intros k Hin. cbn [frame_cols]. unfold indicator_names in Hin.
  repeat (apply elem_of_cons in Hin as [->|Hin]);
    [ rewrite enriched_sma_20 | rewrite enriched_sma_50
    | rewrite enriched_rsi | rewrite enriched_bb_middle
    | rewrite enriched_bb_upper | rewrite enriched_bb_lower
    | by apply elem_of_nil in Hin ]; eauto.
Qed.

(** * The instance of the square root *)

Lemma approx_sqrt_nonneg (x : Q) : 0 <= approx_sqrt x.
Proof.
  unfold approx_sqrt, Qle. cbn.
  pose proof (Z.sqrt_nonneg (Qnum x * Z.pos (Qden x) * 1000000000000)). lia.
Qed.

Lemma approx_sqrt_zero (x : Q) : x == 0 -> approx_sqrt x == 0.
Proof.
  unfold approx_sqrt, Qeq. cbn. intros H.
  replace (Qnum x) with 0%Z by lia. reflexivity.
Qed.

(** * The engine's moving averages and the first RSI cell *)

(** The SMA columns of the engine are [simple_moving_average] with the
    windows 20 and 50. *)
Lemma engine_moving_averages (fsqrt : Q -> Q) (h : heap) (d : loc) (f : frame)
    (close : Series.t) :
  h !! d = Some f ->
  frame_cols f !! "Close" = Some close ->
  (20 <= frame_len f)%nat ->
  exists (h' : heap) (f' : frame) (sma_20 sma_50 : Series.t),
    calculate_technical_indicators fsqrt (Some d) h = Ok (Some d, h') /\
    h' !! d = Some f' /\
    simple_moving_average f 20 = Ok sma_20 /\
    simple_moving_average f 50 = Ok sma_50 /\
    frame_cols f' !! "SMA_20" = Some sma_20 /\
    frame_cols f' !! "SMA_50" = Some sma_50 /\
    frame_cols f' !! "BB_Middle" = Some sma_20.
Proof.
  intros Hd Hc Hlen. eexists _, _, _, _.
  split; [by apply calculate_run|].
  split; [apply lookup_insert_eq|].
  unfold simple_moving_average. rewrite Hc.
  split; [reflexivity|]. split; [reflexivity|]. cbn [frame_cols].
  split; [apply enriched_sma_20|]. split; [apply enriched_sma_50|].
  apply enriched_bb_middle.
Qed.

Lemma diff_fin_cells (closes : list Q) (y : fl) :
  y ∈ Series.diff (Fin <$> closes) -> y = NaN \/ exists q, y = Fin q.
Proof.
  destruct closes as [|c tl]; cbn; [by rewrite elem_of_nil|].
  rewrite elem_of_cons. intros [->|H]; [by left|]. right.
  apply elem_of_zip_with in H as (a & b & -> & Ha & Hb).
  apply list_elem_of_fmap in Ha as (qa & -> & _).
  change (Fin c :: (Fin <$> tl)) with (Fin <$> (c :: tl)) in Hb.
  apply list_elem_of_fmap in Hb as (qb & -> & _).
  cbn. eauto.
Qed.

Lemma win_mean_defined (minp : nat) (win : list fl) :
  (forall x, x ∈ win -> exists q, x = Fin q) ->
  (minp <= length win)%nat -> (0 < length win)%nat ->
  exists q, Rolling.win_mean minp win = Fin q.
Proof.
  intros Hall Hmin Hpos. unfold Rolling.win_mean.
  rewrite (observations_all_fin _ Hall).
  destruct (Nat.leb_spec minp (length win)); [|lia].
  destruct (Nat.ltb_spec 0 (length win)); [|lia].
  cbn. eauto.
Qed.

(** With defined closes the averages of gain and loss are numbers from
    position 13 on: position 0 of the price changes, which has no change,
    counts as a change of 0. *)
Lemma gain_loss_defined_from_13 (closes : list Q) (i : nat) :
  (13 <= i)%nat -> (i < length closes)%nat ->
  exists g l : Q,
    Locals.gain (Fin <$> closes) !! i = Some (Fin g) /\
    Locals.loss (Fin <$> closes) !! i = Some (Fin l).
Proof.
  intros Hi Hlen.
  assert (Hd : length (Series.diff (Fin <$> closes)) = length closes).
  { destruct closes as [|c tl]; [reflexivity|]. cbn.
    rewrite length_zip_with, length_fmap. cbn. rewrite length_fmap. lia. }
  assert (Hg : exists g, Locals.gain (Fin <$> closes) !! i = Some (Fin g)).
  { unfold Locals.gain, Locals.delta.
    rewrite mean_lookup by (unfold Series.where_; rewrite length_fmap; lia).
    destruct (win_mean_defined 14
                (Rolling.window_at 14
                   (Series.where_ (fun x => x >? Fin 0)%fl (Fin 0)
                      (Series.diff (Fin <$> closes))) i)) as [g Hg].
    - intros x Hx. apply window_at_elem in Hx.
      apply list_elem_of_fmap in Hx as (y & -> & Hy).
      destruct (diff_fin_cells _ _ Hy) as [->|[q ->]]; cbn; [eauto|].
      destruct (Fl.Qltb 0 q); eauto.
    - rewrite window_at_length by (unfold Series.where_; rewrite length_fmap; lia).
      lia.
    - rewrite window_at_length by (unfold Series.where_; rewrite length_fmap; lia).
      lia.
    - rewrite Hg. eauto. }
  assert (Hl : exists l, Locals.loss (Fin <$> closes) !! i = Some (Fin l)).
  { unfold Locals.loss, Locals.delta.
    rewrite mean_lookup
      by (unfold Series.neg, Series.where_; rewrite !length_fmap; lia).
    destruct (win_mean_defined 14
                (Rolling.window_at 14
                   (Series.neg
                      (Series.where_ (fun x => x <? Fin 0)%fl (Fin 0)
                         (Series.diff (Fin <$> closes)))) i)) as [l Hl].
    - intros x Hx. apply window_at_elem in Hx.
      apply list_elem_of_fmap in Hx as (z & -> & Hz).
      apply list_elem_of_fmap in Hz as (y & -> & Hy).
      destruct (diff_fin_cells _ _ Hy) as [->|[q ->]]; cbn; [eauto|].
      destruct (Fl.Qltb q 0); cbn; eauto.
    - rewrite window_at_length
        by (unfold Series.neg, Series.where_; rewrite !length_fmap; lia).
      lia.
    - rewrite window_at_length
        by (unfold Series.neg, Series.where_; rewrite !length_fmap; lia).
      lia.
    - rewrite Hl. eauto. }
  destruct Hg as [g Hg], Hl as [l Hl]. eauto.
Qed.

Lemma rsi_cell_defined (g l : Q) :
  0 <= g -> 0 <= l -> ~ (g == 0 /\ l == 0) ->
  Fl.isnan (rsi_cell (Fin g) (Fin l)) = false.
Proof.
  intros Hg Hl Hne. unfold rsi_cell. cbn [Fl.div].
  destruct (Qzerob_spec l) as [Hl0|Hl0].
  - destruct (Qzerob_spec g) as [Hg0|Hg0]; [by destruct Hne|].
    by destruct (Fl.Qltb 0 g).
  - assert (Hpos : 0 < l).
    { apply Qle_lteq in Hl as [?|E]; [assumption|]. destruct Hl0. by symmetry. }
    assert (Hx : 0 <= g / l) by (by apply Qdiv_nonneg).
    cbn [Fl.add Fl.div].
    destruct (Qzerob_spec (1 + g / l)) as [Hz|_]; [lra|]. reflexivity.
Qed.

(** With defined closes, the RSI is a number at every position from 13 on
    at which the average gain and the average loss are not both 0. *)
Lemma rsi_defined_from_13 (closes : list Q) (i : nat) :
  (13 <= i)%nat -> (i < length closes)%nat ->
  exists g l : Q,
    Locals.gain (Fin <$> closes) !! i = Some (Fin g) /\
    Locals.loss (Fin <$> closes) !! i = Some (Fin l) /\
    Locals.rsi (Fin <$> closes) !! i = Some (rsi_cell (Fin g) (Fin l)) /\
    (~ (g == 0 /\ l == 0) -> Fl.isnan (rsi_cell (Fin g) (Fin l)) = false).
Proof.
  intros Hi Hlen.
  destruct (gain_loss_defined_from_13 closes i Hi Hlen) as (g & l & Hg & Hl).
  exists g, l. split; [exact Hg|]. split; [exact Hl|]. split.
  - unfold Locals.rsi, Locals.rs, Series.rsub_scalar, Series.rdiv_scalar,
      Series.radd_scalar, Series.div.
    by rewrite !list_lookup_fmap, lookup_zip_with, Hg, Hl.
  - intros Hne.
    destruct (gain_nonneg _ _ _ Hg) as [?|(g' & [= <-] & Hg')]; [discriminate|].
    destruct (loss_nonneg _ _ _ Hl) as [?|(l' & [= <-] & Hl')]; [discriminate|].
    by apply rsi_cell_defined.
Qed.

(** * The code on concrete series *)

(** C3: on 20 bars that rise by 3 and fall by 1 in turn, the RSI column of
    the engine has a number at position 13, namely 700/9: the first position
    at which the code defines the RSI is 13, where only 13 price changes
    exist. *)
Theorem rsi_defined_at_13 :
  exists (h' : heap) (f' : frame) (rsi : Series.t) (q : Q),
    calculate_technical_indicators approx_sqrt (Some 1%positive)
      (heap_of (frame_of_closes zigzag20)) = Ok (Some 1%positive, h') /\
    h' !! 1%positive = Some f' /\
    frame_cols f' !! "RSI" = Some rsi /\
    rsi !! 13%nat = Some (Fin q) /\ q == 700 # 9.
Proof.
  eexists _, _, _, _.
  split; [apply calculate_run; [reflexivity | reflexivity | vm_compute; lia]|].
  split; [apply lookup_insert_eq|].
  split; [apply enriched_rsi|].
  split; [vm_compute; reflexivity | reflexivity].
Qed.

Lemma engine_gives_nothing_on_three_bars :
  frame_wf (frame_of_closes three_bars) /\
  calculate_technical_indicators approx_sqrt (Some 1%positive)
    (heap_of (frame_of_closes three_bars))
  = Ok (None, heap_of (frame_of_closes three_bars)).
Proof.
  split; [|reflexivity].
  intros k c. unfold frame_of_closes. cbn [frame_cols].
  rewrite !lookup_insert. repeat case_decide; rewrite ?lookup_empty;
    intros [= <-]; reflexivity.
Qed.


Lemma engine_changes_its_input :
  exists (h' : heap) (f' : frame),
    calculate_technical_indicators approx_sqrt (Some 1%positive)
      (heap_of climb_raw) = Ok (Some 1%positive, h') /\
    heap_of climb_raw !! 1%positive = Some climb_raw /\
    h' !! 1%positive = Some f' /\
    frame_cols climb_raw !! "SMA_20" = None /\
    is_Some (frame_cols f' !! "SMA_20").
Proof.
  eexists _, _.
  split; [apply calculate_run; [reflexivity | reflexivity | vm_compute; lia]|].
  split; [reflexivity|].
  split; [apply lookup_insert_eq|].
  split; [reflexivity|].
  cbn [frame_cols]. rewrite enriched_sma_20. eauto.
Qed.


(** The float64 RSI of twenty closes whose last 14 changes hold one fall of a
    unit in the last place and a rally: the average loss is positive, and the
    RSI at the latest bar is the double 100. *)
Lemma rsi_hundred_with_positive_loss :
  exists g l : float,
    length F64.rally20 = 20%nat /\
    F64.gain F64.rally20 !! 19%nat = Some g /\
    F64.loss F64.rally20 !! 19%nat = Some l /\
    PrimFloat.ltb 0 g = true /\
    PrimFloat.ltb 0 l = true /\
    F64.rsi F64.rally20 !! 19%nat = Some 100%float.
Proof.
  eexists _, _.
  split; [reflexivity|].
  split; [vm_compute; reflexivity|].
  split; [vm_compute; reflexivity|].
  split; [vm_compute; reflexivity|].
  split; [vm_compute; reflexivity|].
  vm_compute; reflexivity.
Qed.

(** The running sum of the losses can end below zero: on these thirty closes
    the float64 average loss at position 21 is negative, and the RSI there is
    above 100. *)
Example rsi_above_hundred_on_doubles :
  exists g l r : float,
    F64.gain F64.drift30 !! 21%nat = Some g /\
    F64.loss F64.drift30 !! 21%nat = Some l /\
    F64.rsi F64.drift30 !! 21%nat = Some r /\
    PrimFloat.ltb 0 g = true /\
    PrimFloat.ltb l 0 = true /\
    PrimFloat.ltb 100 r = true.
Proof.
  eexists _, _, _.
  repeat (split; [vm_compute; reflexivity|]).
  vm_compute; reflexivity.
Qed.

(** * The theorems at concrete inputs *)

Lemma generate_signal_branches_witness :
  (20 <= frame_len climb_frame)%nat /\
  generate_signal (Some climb_frame) =
    Ok (BUY,
        "Price above SMA20, RSI: " +:+ fmt_1f (latest_cell climb_frame "RSI"),
        Fl.pymin (Fin 80)
          (Fin 50 + (latest_cell climb_frame "Close" - latest_cell climb_frame "SMA_20")
                    / latest_cell climb_frame "SMA_20" * Fin 1000)%fl).
Proof.
  split; [vm_compute; lia|].
  refine (proj1 (generate_signal_branches climb_frame
                   (latest_cell climb_frame "Close")
                   (latest_cell climb_frame "SMA_20")
                   (latest_cell climb_frame "RSI") _ _ _ _ _ _ _) _);
    vm_compute; first [reflexivity | lia].
Defined.

Lemma generate_signal_insufficient_witness :
  too_short (Some (frame_of_closes three_bars)) /\
  generate_signal (Some (frame_of_closes three_bars))
  = Ok (INSUFFICIENT_DATA, "Not enough data", Fin 0).
Proof.
  assert (H : too_short (Some (frame_of_closes three_bars)))
    by (vm_compute; lia).
  split; [exact H|].
  exact (proj1 (generate_signal_insufficient (Some (frame_of_closes three_bars))) H).
Defined.




Lemma rsi_range_witness :
  exists (h' : heap) (f' : frame) (rsi : Series.t),
    calculate_technical_indicators approx_sqrt (Some 1%positive) (heap_of climb_raw)
    = Ok (Some 1%positive, h') /\
    h' !! 1%positive = Some f' /\
    frame_cols f' !! "RSI" = Some rsi /\
    length rsi = length (Fin <$> climb20) /\
    forall i : nat, (i < length (Fin <$> climb20))%nat ->
      exists g l r : fl,
        Locals.gain (Fin <$> climb20) !! i = Some g /\
        Locals.loss (Fin <$> climb20) !! i = Some l /\
        rsi !! i = Some r /\
        r = rsi_cell g l /\
        ((Fin 0 <=? g)%fl = true -> (Fin 0 <=? l)%fl = true ->
         Fl.isnan r = false ->
           (Fin 0 <=? r)%fl = true /\ (r <=? Fin 100)%fl = true) /\
        (Fl.eqv l (Fin 0) -> (Fin 0 <? g)%fl = true -> Fl.eqv r (Fin 100)) /\
        (Fl.eqv g (Fin 0) -> Fl.eqv l (Fin 0) -> r = NaN).
Proof.
  apply (rsi_range approx_sqrt (heap_of climb_raw) 1%positive climb_raw
           (Fin <$> climb20));
    [reflexivity | reflexivity | vm_compute; lia].
Defined.

Lemma bollinger_bands_ordered_witness :
  exists (h' : heap) (f' : frame) (upper middle lower : Series.t),
    calculate_technical_indicators approx_sqrt (Some 1%positive) (heap_of climb_raw)
    = Ok (Some 1%positive, h') /\
    h' !! 1%positive = Some f' /\
    frame_cols f' !! "BB_Upper" = Some upper /\
    frame_cols f' !! "BB_Middle" = Some middle /\
    frame_cols f' !! "BB_Lower" = Some lower /\
    forall (i : nat) (u m l : fl),
      upper !! i = Some u -> middle !! i = Some m -> lower !! i = Some l ->
      (Fl.isnan u = false -> Fl.isnan m = false -> Fl.isnan l = false ->
         (l <=? m)%fl = true /\ (m <=? u)%fl = true) /\
      (forall c : Q,
         (forall j : nat, (i - 19 <= j)%nat -> (j <= i)%nat ->
            exists q : Q, (Fin <$> climb20) !! j = Some (Fin q) /\ q == c) ->
         Fl.eqv u m /\ Fl.eqv m l /\ ((19 <= i)%nat -> Fl.eqv m (Fin c))).
Proof.
  apply (bollinger_bands_ordered approx_sqrt approx_sqrt_nonneg approx_sqrt_zero
           (heap_of climb_raw) 1%positive climb_raw (Fin <$> climb20));
    [reflexivity | reflexivity | vm_compute; lia].
Defined.

Lemma climb_raw_wf : frame_wf climb_raw.
Proof.
  intros k c. unfold climb_raw, frame_of_closes. cbn [frame_cols].
  rewrite !lookup_insert. repeat case_decide; rewrite ?lookup_empty;
    intros [= <-]; reflexivity.
Qed.

Lemma engine_result_witness :
  exists (h' : heap) (f' : frame),
    calculate_technical_indicators approx_sqrt (Some 1%positive) (heap_of climb_raw)
    = Ok (Some 1%positive, h') /\
    h' !! 1%positive = Some f' /\
    frame_len f' = frame_len climb_raw /\
    frame_wf f' /\
    exists sma_20 sma_50 rsi bb_middle bb_upper bb_lower : Series.t,
      frame_cols f' !! "SMA_20" = Some sma_20 /\
      frame_cols f' !! "SMA_50" = Some sma_50 /\
      frame_cols f' !! "RSI" = Some rsi /\
      frame_cols f' !! "BB_Middle" = Some bb_middle /\
      frame_cols f' !! "BB_Upper" = Some bb_upper /\
      frame_cols f' !! "BB_Lower" = Some bb_lower /\
      undefined_before 19 sma_20 /\
      undefined_before 49 sma_50 /\
      undefined_before 13 rsi /\
      undefined_before 19 bb_middle /\
      undefined_before 19 bb_upper /\
      undefined_before 19 bb_lower.
Proof.
  refine (proj2 (proj2 (engine_result approx_sqrt (heap_of climb_raw) 1%positive
                          climb_raw _)) (Fin <$> climb20) _ _ _);
    [reflexivity | vm_compute; lia | exact climb_raw_wf | reflexivity].
Defined.

Lemma engine_updates_in_place_witness :
  exists (h' : heap) (f' : frame),
    calculate_technical_indicators approx_sqrt (Some 1%positive) (heap_of climb_raw)
    = Ok (Some 1%positive, h') /\
    h' !! 1%positive = Some f' /\
    (forall d' : loc, d' <> 1%positive -> h' !! d' = heap_of climb_raw !! d') /\
    frame_index f' = frame_index climb_raw /\
    (forall k : string, k ∉ indicator_names ->
       frame_cols f' !! k = frame_cols climb_raw !! k) /\
    (forall k : string, k ∈ indicator_names -> is_Some (frame_cols f' !! k)).
Proof.
  refine (proj2 (engine_updates_in_place approx_sqrt (heap_of climb_raw) 1%positive
                   climb_raw _) (Fin <$> climb20) _ _);
    [reflexivity | vm_compute; lia | reflexivity].
Defined.

(** * The scenarios of the specification, run on the model *)

(** 30 bars with one price: the bands coincide, the RSI is undefined, and the
    signal is NEUTRAL "Calculating..." with confidence 50. *)
Example scenario_flat :
  dashboard_signal approx_sqrt (Some 1%positive) (heap_of (frame_of_closes flat30))
  = Ok (Some (NEUTRAL, "Calculating...", Fin 50)).
Proof. vm_compute. reflexivity. Qed.

(** exactly 20 bars: SMA_20 is defined at position 19 and not before, and
    SMA_50 nowhere *)
Example scenario_twenty_bars :
  (exists q, frame_cols climb_frame !! "SMA_20"
             = Some (replicate 19 NaN ++ [Fin q]) /\ q == 211 # 2) /\
  frame_cols climb_frame !! "SMA_50" = Some (replicate 20 NaN).
Proof.
  split; [eexists; split; [vm_compute; reflexivity | reflexivity]|].
  vm_compute. reflexivity.
Qed.

(** no frame at all *)
Example scenario_none :
  generate_signal_at None ∅ = Ok (INSUFFICIENT_DATA, "Not enough data", Fin 0).
Proof. reflexivity. Qed.

(** the format [.1f] rounds to the nearest tenth, ties to even, and keeps the
    sign *)
Example fmt_1f_examples :
  fmt_1f (Fin (200 # 3)) = "66.7" /\ fmt_1f (Fin (1 # 4)) = "0.2" /\
  fmt_1f (Fin (3 # 4)) = "0.8" /\ fmt_1f (Fin (- (1 # 25))) = "-0.0" /\
  fmt_1f (Fin 100) = "100.0" /\ fmt_1f NaN = "nan".
Proof. vm_compute. repeat split. Qed.

(** * Further properties of the engine and of the signal generator *)

(** ** Errors *)

(** X1. On a frame of at least 20 bars without a [Close] column the engine
    raises [KeyError] for [Close]. *)
Theorem engine_missing_close (fsqrt : Q -> Q) (h : heap) (d : loc) (f : frame) :
  h !! d = Some f ->
  frame_cols f !! "Close" = None ->
  (20 <= frame_len f)%nat ->
  calculate_technical_indicators fsqrt (Some d) h = Raise (KeyError "Close").
Proof.
  intros Hd Hc Hlen. unfold calculate_technical_indicators.
  rewrite (bind_run _ _ _ _ _ (len_run _ _ _ Hd)).
  destruct (Nat.ltb_spec (frame_len f) 20) as [?|_]; [lia|].
  unfold M.bind at 1. unfold M.getitem at 1. by rewrite Hd, Hc.
Qed.

Lemma latest_wf (f : frame) (k : string) (c : Series.t) :
  frame_wf f -> (0 < frame_len f)%nat -> frame_cols f !! k = Some c ->
  exists x, latest f k = Ok x /\ c !! (frame_len f - 1)%nat = Some x.
Proof.
  intros Hwf Hpos Hk. unfold latest, Series.iloc_last. rewrite Hk.
  rewrite last_lookup, (Hwf _ _ Hk).
  replace (Nat.pred (frame_len f)) with (frame_len f - 1)%nat by lia.
  destruct (lookup_lt_is_Some_2 c (frame_len f - 1)) as [x Hx].
  { rewrite (Hwf _ _ Hk). lia. }
  rewrite Hx. eauto.
Qed.

(** X2. On a well-formed frame of at least 20 bars [generate_signal] reads
    [Close], [SMA_20] and [RSI] in this order and raises [KeyError] for the
    first one that is missing; with the three columns it returns a signal. *)
Theorem generate_signal_key_errors (f : frame) :
  (20 <= frame_len f)%nat -> frame_wf f ->
  (frame_cols f !! "Close" = None ->
   generate_signal (Some f) = Raise (KeyError "Close")) /\
  (is_Some (frame_cols f !! "Close") -> frame_cols f !! "SMA_20" = None ->
   generate_signal (Some f) = Raise (KeyError "SMA_20")) /\
  (is_Some (frame_cols f !! "Close") -> is_Some (frame_cols f !! "SMA_20") ->
   frame_cols f !! "RSI" = None ->
   generate_signal (Some f) = Raise (KeyError "RSI")) /\
  (is_Some (frame_cols f !! "Close") -> is_Some (frame_cols f !! "SMA_20") ->
   is_Some (frame_cols f !! "RSI") ->
   exists s : signal, generate_signal (Some f) = Ok s).
Proof.
  intros Hlen Hwf. rewrite (generate_signal_long _ Hlen).
  assert (Hpos : (0 < frame_len f)%nat) by lia.
  assert (Hmiss : forall k, frame_cols f !! k = None -> latest f k = Raise (KeyError k)).
  { intros k Hk. unfold latest. by rewrite Hk. }
  assert (Hok : forall k, is_Some (frame_cols f !! k) -> exists x, latest f k = Ok x).
  { intros k [c Hk]. destruct (latest_wf f k c Hwf Hpos Hk) as (x & Hx & _). eauto. }
  split; [intros Hc; by rewrite (Hmiss _ Hc)|].
  split.
  { intros Hc Hs. destruct (Hok _ Hc) as [c ->]. by rewrite (Hmiss _ Hs). }
  split.
  { intros Hc Hs Hr. destruct (Hok _ Hc) as [c ->]. destruct (Hok _ Hs) as [s ->].
    by rewrite (Hmiss _ Hr). }
  intros Hc Hs Hr.
  destruct (Hok _ Hc) as [c ->]. destruct (Hok _ Hs) as [s ->].
  destruct (Hok _ Hr) as [r ->]. cbn [res_bind].
  repeat match goal with |- context [if ?b then _ else _] => destruct b end; eauto.
Qed.

(** ** Running the engine again *)

Lemma enriched_cols_twice (fsqrt : Q -> Q) (close : Series.t)
    (cols : gmap string Series.t) :
  enriched_cols fsqrt close (enriched_cols fsqrt close cols)
  = enriched_cols fsqrt close cols.
Proof.
  apply map_eq. intros k.
  destruct (decide (k ∈ indicator_names)) as [Hin|Hout].
  - unfold indicator_names in Hin.
    repeat (apply elem_of_cons in Hin as [->|Hin]);
      [ by rewrite !enriched_sma_20 | by rewrite !enriched_sma_50
      | by rewrite !enriched_rsi | by rewrite !enriched_bb_middle
      | by rewrite !enriched_bb_upper | by rewrite !enriched_bb_lower
      | by apply elem_of_nil in Hin ].
  - by rewrite !enriched_other.
Qed.

(** X3. The engine is idempotent: run on the frame it has returned, it returns
    the same reference again and leaves the heap as the first run left it. *)
Theorem engine_idempotent (fsqrt : Q -> Q) (h h' : heap) (d : loc) (r : pyref) :
  calculate_technical_indicators fsqrt (Some d) h = Ok (r, h') ->
  calculate_technical_indicators fsqrt r h' = Ok (r, h').
Proof.
  intros Hrun.
  destruct (h !! d) as [f|] eqn:Hd.
  2:{ unfold calculate_technical_indicators, M.bind, M.len in Hrun.
      by rewrite Hd in Hrun. }
  destruct (Nat.lt_ge_cases (frame_len f) 20) as [Hlt|Hge].
  { rewrite (calculate_short fsqrt h d f Hd Hlt) in Hrun.
    by injection Hrun as <- <-. }
  destruct (frame_cols f !! "Close") as [close|] eqn:Hc.
  2:{ unfold calculate_technical_indicators in Hrun.
      rewrite (bind_run _ _ _ _ _ (len_run _ _ _ Hd)) in Hrun.
      destruct (Nat.ltb_spec (frame_len f) 20) as [?|_]; [lia|].
      unfold M.bind at 1 in Hrun. unfold M.getitem at 1 in Hrun.
      by rewrite Hd, Hc in Hrun. }
  rewrite (calculate_run fsqrt h d f close Hd Hc Hge) in Hrun.
  injection Hrun as <- <-.
  rewrite (calculate_run fsqrt _ d _ close (lookup_insert_eq _ _ _)); cycle 1.
  - cbn [frame_cols]. rewrite enriched_other; [exact Hc|].
    unfold indicator_names. rewrite !not_elem_of_cons. repeat split; try done.
    apply not_elem_of_nil.
  - exact Hge.
  - cbn [frame_cols frame_index]. by rewrite enriched_cols_twice, insert_insert_eq.
Qed.

(** ** The frame the engine returns *)

Lemma enriched_wf (fsqrt : Q -> Q) (f : frame) (close : Series.t) :
  frame_wf f -> frame_cols f !! "Close" = Some close ->
  frame_wf (Frame (frame_index f) (enriched_cols fsqrt close (frame_cols f))).
Proof.
  intros Hwf Hc k c. unfold frame_len. cbn [frame_cols frame_index].
  fold (frame_len f). rewrite <- (Hwf _ _ Hc).
  destruct (decide (k ∈ indicator_names)) as [Hin|Hout].
  - unfold indicator_names in Hin.
    repeat (apply elem_of_cons in Hin as [->|Hin]);
      [ rewrite enriched_sma_20 | rewrite enriched_sma_50
      | rewrite enriched_rsi | rewrite enriched_bb_middle
      | rewrite enriched_bb_upper | rewrite enriched_bb_lower
      | by apply elem_of_nil in Hin ];
      intros [= <-];
      [ apply mean_length | apply mean_length | apply rsi_length
      | apply mean_length | apply bb_upper_length | apply bb_lower_length ].
  - rewrite enriched_other by exact Hout. rewrite (Hwf _ _ Hc). apply Hwf.
Qed.

Lemma enriched_close (fsqrt : Q -> Q) (close : Series.t) (cols : gmap string Series.t) :
  enriched_cols fsqrt close cols !! "Close" = cols !! "Close".
Proof.
  apply enriched_other. unfold indicator_names.
  rewrite !not_elem_of_cons. repeat split; try done. apply not_elem_of_nil.
Qed.

(** The signal of the dashboard is [generate_signal] on the frame with the
    engine's columns. *)
Lemma dashboard_signal_run (fsqrt : Q -> Q) (h : heap) (d : loc) (f : frame)
    (close : Series.t) :
  h !! d = Some f ->
  frame_cols f !! "Close" = Some close ->
  (20 <= frame_len f)%nat ->
  dashboard_signal fsqrt (Some d) h =
    match generate_signal
            (Some (Frame (frame_index f) (enriched_cols fsqrt close (frame_cols f)))) with
    | Ok s => Ok (Some s)
    | Raise e => Raise e
    end.
Proof.
  intros Hd Hc Hlen. unfold dashboard_signal.
  rewrite (calculate_run fsqrt h d f close Hd Hc Hlen).
  unfold generate_signal_at. by rewrite lookup_insert_eq.
Qed.

Lemma dashboard_signal_short (fsqrt : Q -> Q) (h : heap) (d : loc) (f : frame) :
  h !! d = Some f -> (frame_len f < 20)%nat ->
  dashboard_signal fsqrt (Some d) h = Ok None.
Proof.
  intros Hd Hlen. unfold dashboard_signal.
  by rewrite (calculate_short fsqrt h d f Hd Hlen).
Qed.

(** the three cells [generate_signal] reads from the frame the engine returns *)
Lemma latest_enriched (fsqrt : Q -> Q) (f : frame) (close : Series.t) :
  frame_wf f -> frame_cols f !! "Close" = Some close ->
  (20 <= frame_len f)%nat ->
  let f' := Frame (frame_index f) (enriched_cols fsqrt close (frame_cols f)) in
  let i := (frame_len f - 1)%nat in
  exists c s r : fl,
    latest f' "Close" = Ok c /\ latest f' "SMA_20" = Ok s /\ latest f' "RSI" = Ok r /\
    close !! i = Some c /\ Rolling.mean 20 close !! i = Some s /\
    Locals.rsi close !! i = Some r.
Proof.
  intros Hwf Hc Hlen f' i.
  assert (Hwf' : frame_wf f') by (by apply enriched_wf).
  assert (Hpos : (0 < frame_len f')%nat) by (unfold f', frame_len; cbn; unfold frame_len in Hlen; lia).
  destruct (latest_wf f' "Close" close Hwf' Hpos) as (c & Hlc & Hic).
  { cbn [f' frame_cols]. by rewrite enriched_close. }
  destruct (latest_wf f' "SMA_20" _ Hwf' Hpos (enriched_sma_20 _ _ _)) as (s & Hls & His).
  destruct (latest_wf f' "RSI" _ Hwf' Hpos (enriched_rsi _ _ _)) as (r & Hlr & Hir).
  exists c, s, r. repeat split; assumption.
Qed.

(** ** From a frame to a signal *)

(** The engine followed by [generate_signal], on a well-formed frame with a
    [Close] column: nothing on fewer than 20 bars, and a signal whose kind is
    not INSUFFICIENT_DATA on 20 bars or more. *)
Lemma dashboard_signal_kind (fsqrt : Q -> Q) (h : heap) (d : loc) (f : frame) :
  h !! d = Some f -> frame_wf f -> is_Some (frame_cols f !! "Close") ->
  ((frame_len f < 20)%nat -> dashboard_signal fsqrt (Some d) h = Ok None) /\
  ((20 <= frame_len f)%nat ->
   exists (k : kind) (reason : string) (conf : fl),
     dashboard_signal fsqrt (Some d) h = Ok (Some (k, reason, conf)) /\
     k <> INSUFFICIENT_DATA).
Proof.
  intros Hd Hwf [close Hc]. split; [by apply dashboard_signal_short|].
  intros Hlen. rewrite (dashboard_signal_run fsqrt h d f close Hd Hc Hlen).
  destruct (latest_enriched fsqrt f close Hwf Hc Hlen)
    as (c & s & r & Hlc & Hls & Hlr & _).
  rewrite generate_signal_long by exact Hlen.
  rewrite Hlc, Hls, Hlr. cbn [res_bind].
  repeat match goal with |- context [if ?b then _ else _] => destruct b end;
    eexists _, _, _; (split; [reflexivity | discriminate]).
Qed.

(** ** Windows of known cells *)

Lemma window_at_cells (w : nat) (s : Series.t) (i : nat) (cell : nat -> Q) :
  (i < length s)%nat -> (w <= S i)%nat ->
  (forall j, (S i - w <= j)%nat -> (j <= i)%nat -> s !! j = Some (Fin (cell j))) ->
  Rolling.window_at w s i = Fin <$> (cell <$> seq (S i - w) w).
Proof.
  intros Hi Hw Hcells. unfold Rolling.window_at.
  replace (Nat.min w (S i)) with w by lia.
  apply list_eq. intros j. rewrite !list_lookup_fmap.
  destruct (Nat.lt_ge_cases j w) as [Hj|Hj].
  - rewrite lookup_take_lt, lookup_drop, lookup_seq_lt by lia. cbn.
    apply Hcells; lia.
  - rewrite lookup_take_ge, lookup_seq_ge by lia. reflexivity.
Qed.

Lemma mean_of_cells (w : nat) (s : Series.t) (i : nat) (cell : nat -> Q) :
  (0 < w)%nat -> (i < length s)%nat -> (w <= S i)%nat ->
  (forall j, (S i - w <= j)%nat -> (j <= i)%nat -> s !! j = Some (Fin (cell j))) ->
  Rolling.mean w s !! i = Some (Fin (mean_over cell w i)).
Proof.
  intros Hw Hi Hle Hcells.
  rewrite mean_lookup by exact Hi.
  rewrite (window_at_cells w s i cell Hi Hle Hcells).
  rewrite win_mean_fin by (by rewrite length_fmap, length_seq).
  cbn [Fl.div]. rewrite Qzerob_inject_nat.
  destruct w; [lia|]. reflexivity.
Qed.

Lemma nth_close_lookup (closes : list Q) (j : nat) :
  (j < length closes)%nat -> closes !! j = Some (nth_close closes j).
Proof.
  intros Hj. unfold nth_close.
  destruct (lookup_lt_is_Some_2 closes j Hj) as [x ->]. reflexivity.
Qed.

Lemma diff_length (s : Series.t) : length (Series.diff s) = length s.
Proof.
  destruct s as [|x tl]; [reflexivity|]. cbn.
  rewrite length_zip_with. cbn. lia.
Qed.

(** the cells of [data['Close'].diff()] *)
Lemma diff_cells (closes : list Q) (j : nat) :
  (j < length closes)%nat ->
  Series.diff (Fin <$> closes) !! j =
    Some (match change closes j with Some d => Fin d | None => NaN end).
Proof.
  intros Hj. destruct closes as [|c tl]; [cbn in Hj; lia|].
  destruct j as [|j]; [reflexivity|].
  rewrite fmap_cons. unfold Series.diff, change.
  change ((NaN :: ?l) !! S j) with (l !! j).
  rewrite <- (fmap_cons Fin c tl).
  rewrite lookup_zip_with, !list_lookup_fmap.
  cbn in Hj.
  rewrite (nth_close_lookup (c :: tl) j) by (cbn; lia).
  assert (E : tl !! j = Some (nth_close (c :: tl) (S j))).
  { rewrite <- (nth_close_lookup (c :: tl) (S j)) by (cbn; lia). reflexivity. }
  rewrite E. reflexivity.
Qed.

Lemma rise_cells (closes : list Q) (j : nat) :
  (j < length closes)%nat ->
  Series.where_ (fun x => x >? Fin 0)%fl (Fin 0) (Series.diff (Fin <$> closes)) !! j
  = Some (Fin (rise closes j)).
Proof.
  intros Hj. unfold Series.where_.
  rewrite list_lookup_fmap, (diff_cells closes j Hj). unfold rise.
  destruct (change closes j) as [d|]; cbn; [|reflexivity].
  by destruct (Fl.Qltb 0 d).
Qed.

Lemma fall_cells (closes : list Q) (j : nat) :
  (j < length closes)%nat ->
  Series.neg
    (Series.where_ (fun x => x <? Fin 0)%fl (Fin 0) (Series.diff (Fin <$> closes))) !! j
  = Some (Fin (fall closes j)).
Proof.
  intros Hj. unfold Series.neg, Series.where_.
  rewrite !list_lookup_fmap, (diff_cells closes j Hj). unfold fall.
  destruct (change closes j) as [d|]; cbn; [|reflexivity].
  by destruct (Fl.Qltb d 0).
Qed.

Lemma gain_closed (closes : list Q) (i : nat) :
  (13 <= i)%nat -> (i < length closes)%nat ->
  Locals.gain (Fin <$> closes) !! i = Some (Fin (mean_over (rise closes) 14 i)).
Proof.
  intros Hi Hlen. unfold Locals.gain, Locals.delta.
  apply mean_of_cells; [lia | | lia |].
  - unfold Series.where_. rewrite length_fmap, diff_length, length_fmap. exact Hlen.
  - intros j _ Hj. apply rise_cells. lia.
Qed.

Lemma loss_closed (closes : list Q) (i : nat) :
  (13 <= i)%nat -> (i < length closes)%nat ->
  Locals.loss (Fin <$> closes) !! i = Some (Fin (mean_over (fall closes) 14 i)).
Proof.
  intros Hi Hlen. unfold Locals.loss, Locals.delta.
  apply mean_of_cells; [lia | | lia |].
  - unfold Series.neg, Series.where_.
    rewrite !length_fmap, diff_length, length_fmap. exact Hlen.
  - intros j _ Hj. apply fall_cells. lia.
Qed.

Lemma rsi_closed (closes : list Q) (i : nat) :
  (13 <= i)%nat -> (i < length closes)%nat ->
  Locals.rsi (Fin <$> closes) !! i =
    Some (rsi_cell (Fin (mean_over (rise closes) 14 i))
                   (Fin (mean_over (fall closes) 14 i))).
Proof.
  intros Hi Hlen.
  unfold Locals.rsi, Locals.rs, Series.rsub_scalar, Series.rdiv_scalar,
    Series.radd_scalar, Series.div.
  by rewrite !list_lookup_fmap, lookup_zip_with,
    (gain_closed closes i Hi Hlen), (loss_closed closes i Hi Hlen).
Qed.

Lemma sma_closed (closes : list Q) (w i : nat) :
  (0 < w)%nat -> (w <= S i)%nat -> (i < length closes)%nat ->
  Rolling.mean w (Fin <$> closes) !! i = Some (Fin (mean_over (nth_close closes) w i)).
Proof.
  intros Hw Hle Hlen.
  apply mean_of_cells; [exact Hw | by rewrite length_fmap | exact Hle |].
  intros j _ Hj. rewrite list_lookup_fmap, nth_close_lookup by lia. reflexivity.
Qed.

(** ** Sums and means of rational cells *)

Lemma Qsum_cons (q : Q) (l : list Q) : Rolling.Qsum (q :: l) = q + Rolling.Qsum l.
Proof. reflexivity. Qed.


Lemma inject_nat_pos (w : nat) : (0 < w)%nat -> 0 < inject_Z (Z.of_nat w).
Proof. intros H. unfold Qlt. cbn. lia. Qed.

(** ** Which signal the dashboard gets *)

Section DashboardSignal.

Variable fsqrt : Q -> Q.
Variable h : heap.
Variable d : loc.
Variable f : frame.
Variable closes : list Q.
Hypothesis Hd : h !! d = Some f.
Hypothesis Hwf : frame_wf f.
Hypothesis Hclose : frame_cols f !! "Close" = Some (Fin <$> closes).
Hypothesis Hlen : (20 <= frame_len f)%nat.

Local Abbreviation last_i := (length closes - 1)%nat.

Lemma closes_length : length closes = frame_len f.
Proof. rewrite <- (Hwf _ _ Hclose). by rewrite length_fmap. Qed.

(** the three cells of the latest bar, in closed form *)
Lemma dashboard_signal_cells :
  dashboard_signal fsqrt (Some d) h =
    match
      (let current_price := Fin (nth_close closes last_i) in
       let sma_20 := Fin (mean_over (nth_close closes) 20 last_i) in
       let rsi := rsi_cell (Fin (mean_over (rise closes) 14 last_i))
                           (Fin (mean_over (fall closes) 14 last_i)) in
       if Fl.isnan rsi
       then Ok (NEUTRAL, "Calculating...", Fin 50)
       else
         if (current_price >? sma_20)%fl && (rsi <? Fin 70)%fl
         then Ok (BUY, "Price above SMA20, RSI: " +:+ fmt_1f rsi,
                  Fl.pymin (Fin 80)
                    (Fin 50 + (current_price - sma_20) / sma_20 * Fin 1000)%fl)
         else if negb (current_price >? sma_20)%fl && (rsi >? Fin 30)%fl
         then Ok (SELL, "Price below SMA20, RSI: " +:+ fmt_1f rsi,
                  Fl.pymin (Fin 80)
                    (Fin 50 + (sma_20 - current_price) / sma_20 * Fin 1000)%fl)
         else Ok (NEUTRAL, "Mixed signals, RSI: " +:+ fmt_1f rsi, Fin 40))
    with
    | Ok s => Ok (Some s)
    | Raise e => Raise e
    end.
Proof.
  pose proof closes_length as Hn.
  rewrite (dashboard_signal_run fsqrt h d f _ Hd Hclose Hlen).
  destruct (latest_enriched fsqrt f _ Hwf Hclose Hlen)
    as (c & s & r & Hlc & Hls & Hlr & Hc & Hs & Hr).
  rewrite <- Hn in Hc, Hs, Hr.
  rewrite list_lookup_fmap, nth_close_lookup in Hc by lia. injection Hc as <-.
  rewrite sma_closed in Hs by lia. injection Hs as <-.
  rewrite rsi_closed in Hr by lia. injection Hr as <-.
  rewrite generate_signal_long by exact Hlen.
  rewrite Hlc, Hls, Hlr. reflexivity.
Qed.

End DashboardSignal.



(** ** The metrics row of the dashboard *)

Lemma previous_wf (f : frame) (k : string) (c : Series.t) :
  frame_wf f -> (2 <= frame_len f)%nat -> frame_cols f !! k = Some c ->
  exists x, previous f k = Ok x /\ c !! (frame_len f - 2)%nat = Some x.
Proof.
  intros Hwf Hlen Hk. unfold previous, iloc_prev. rewrite Hk, (Hwf _ _ Hk).
  destruct (frame_len f) as [|[|n]] eqn:E; [lia | lia |].
  replace (S (S n) - 2)%nat with n by lia.
  destruct (lookup_lt_is_Some_2 c n) as [x Hx].
  { rewrite (Hwf _ _ Hk). lia. }
  rewrite Hx. eauto.
Qed.

Lemma enriched_volume (fsqrt : Q -> Q) (close : Series.t) (cols : gmap string Series.t) :
  enriched_cols fsqrt close cols !! "Volume" = cols !! "Volume".
Proof.
  apply enriched_other. unfold indicator_names.
  rewrite !not_elem_of_cons. repeat split; try done. apply not_elem_of_nil.
Qed.

(** With a [Volume] column the reads of the metrics row succeed, and the row
    shows the signal of [generate_signal] on the frame of the engine. *)
Lemma dashboard_metrics_run (fsqrt : Q -> Q) (h : heap) (d : loc) (f : frame)
    (close vol : Series.t) :
  h !! d = Some f -> frame_wf f ->
  frame_cols f !! "Close" = Some close ->
  frame_cols f !! "Volume" = Some vol ->
  (20 <= frame_len f)%nat ->
  exists c p v r : fl,
    close !! (frame_len f - 1)%nat = Some c /\
    close !! (frame_len f - 2)%nat = Some p /\
    vol !! (frame_len f - 1)%nat = Some v /\
    Locals.rsi close !! (frame_len f - 1)%nat = Some r /\
    dashboard_metrics fsqrt (Some d) h =
      match dashboard_signal fsqrt (Some d) h with
      | Ok (Some s) =>
          Ok (Some (Metrics c (c - p)%fl ((c - p) / p * Fin 100)%fl v
                      (if Fl.isnan r then None else Some r) s))
      | Ok None => Ok None
      | Raise e => Raise e
      end.
Proof.
  intros Hd Hwf Hc Hv Hlen.
  set (f' := Frame (frame_index f) (enriched_cols fsqrt close (frame_cols f))).
  assert (Hwf' : frame_wf f') by (by apply enriched_wf).
  assert (Hlen' : frame_len f' = frame_len f) by reflexivity.
  destruct (latest_wf f' "Close" close Hwf' ltac:(lia)) as (c & Hlc & Hic).
  { cbn [f' frame_cols]. by rewrite enriched_close. }
  destruct (previous_wf f' "Close" close Hwf' ltac:(lia)) as (p & Hlp & Hip).
  { cbn [f' frame_cols]. by rewrite enriched_close. }
  destruct (latest_wf f' "Volume" vol Hwf' ltac:(lia)) as (v & Hlv & Hiv).
  { cbn [f' frame_cols]. by rewrite enriched_volume. }
  destruct (latest_wf f' "RSI" _ Hwf' ltac:(lia) (enriched_rsi _ _ _))
    as (r & Hlr & Hir).
  exists c, p, v, r. rewrite Hlen' in *.
  repeat (split; [assumption|]).
  rewrite (dashboard_signal_run fsqrt h d f close Hd Hc Hlen).
  unfold dashboard_metrics.
  rewrite (calculate_run fsqrt h d f close Hd Hc Hlen), lookup_insert_eq.
  fold f'. rewrite Hlc, Hlp, Hlv, Hlr. cbn [res_bind].
  destruct (Fl.isnan r); cbn [negb res_bind]; rewrite ?Hlr; cbn [res_bind];
    by destruct (generate_signal (Some f')).
Qed.

(** X4. On a well-formed frame with a [Close] column the dashboard stops with
    its error message on fewer than 20 bars; on 20 bars or more it shows the
    metrics row when the frame has a [Volume] column, with a signal whose kind
    is never INSUFFICIENT_DATA, and it raises [KeyError] for [Volume] when
    the frame has none. *)
Theorem dashboard_metrics_total (fsqrt : Q -> Q) (h : heap) (d : loc) (f : frame) :
  h !! d = Some f -> frame_wf f -> is_Some (frame_cols f !! "Close") ->
  ((frame_len f < 20)%nat -> dashboard_metrics fsqrt (Some d) h = Ok None) /\
  ((20 <= frame_len f)%nat -> is_Some (frame_cols f !! "Volume") ->
   exists (m : metrics) (k : kind) (reason : string) (conf : fl),
     dashboard_metrics fsqrt (Some d) h = Ok (Some m) /\
     signal_shown m = (k, reason, conf) /\
     k <> INSUFFICIENT_DATA) /\
  ((20 <= frame_len f)%nat -> frame_cols f !! "Volume" = None ->
   dashboard_metrics fsqrt (Some d) h = Raise (KeyError "Volume")).
Proof.
  intros Hd Hwf [close Hc]. split; [|split].
  - intros Hlen. unfold dashboard_metrics.
    by rewrite (calculate_short fsqrt h d f Hd Hlen).
  - intros Hlen [vol Hv].
    destruct (dashboard_metrics_run fsqrt h d f close vol Hd Hwf Hc Hv Hlen)
      as (c & p & v & r & _ & _ & _ & _ & ->).
    destruct (dashboard_signal_kind fsqrt h d f Hd Hwf (mk_is_Some _ _ Hc))
      as [_ Hsig].
    destruct (Hsig Hlen) as (k & reason & conf & -> & Hk).
    by eexists _, k, reason, conf.
  - intros Hlen Hv.
    set (f' := Frame (frame_index f) (enriched_cols fsqrt close (frame_cols f))).
    assert (Hwf' : frame_wf f') by (by apply enriched_wf).
    assert (Hlen' : frame_len f' = frame_len f) by reflexivity.
    destruct (latest_wf f' "Close" close Hwf' ltac:(lia)) as (c & Hlc & _).
    { cbn [f' frame_cols]. by rewrite enriched_close. }
    destruct (previous_wf f' "Close" close Hwf' ltac:(lia)) as (p & Hlp & _).
    { cbn [f' frame_cols]. by rewrite enriched_close. }
    unfold dashboard_metrics.
    rewrite (calculate_run fsqrt h d f close Hd Hc Hlen), lookup_insert_eq.
    fold f'. rewrite Hlc, Hlp. cbn [res_bind].
    unfold latest at 1. cbn [f' frame_cols]. by rewrite enriched_volume, Hv.
Qed.


(** * src/main.py: the command-line program *)

Lemma select_ok (data : frame) (ks : list string) :
  (forall k, k ∈ ks -> is_Some (frame_cols data !! k)) ->
  exists m, select data ks = Ok m.
Proof.
  induction ks as [|k ks IH]; intros Hall; [by eexists|].
  destruct (Hall k) as [c Hc]; [by left|].
  destruct IH as [m Hm]; [intros k' Hk'; apply Hall; by right|].
  cbn [select]. unfold column. rewrite Hc. cbn [res_bind]. rewrite Hm.
  by eexists.
Qed.

Lemma latest_mean_20 (closes : list Q) :
  (0 < length closes)%nat ->
  Series.iloc_last (Rolling.mean 20 (Fin <$> closes)) =
    Some (if (length closes <? 20)%nat then NaN
          else Fin (mean_over (nth_close closes) 20 (length closes - 1))).
Proof.
  intros Hpos. unfold Series.iloc_last.
  rewrite last_lookup, mean_length, length_fmap.
  replace (Nat.pred (length closes)) with (length closes - 1)%nat by lia.
  destruct (Nat.ltb_spec (length closes) 20) as [Hlt|Hge].
  - rewrite mean_fin_lookup by lia.
    by destruct (Nat.ltb_spec (S (length closes - 1)) 20); [|lia].
  - by rewrite sma_closed by lia.
Qed.

Section CliRun.

Variable yf_history : string -> string -> frame + string.
Variable data : frame.
Variable closes : list Q.
Hypothesis Hfetch : yf_history "GC=F" "1mo" = inl data.
Hypothesis Hwf : frame_wf data.
Hypothesis Hclose : frame_cols data !! "Close" = Some (Fin <$> closes).
Hypothesis Hohl : forall k, k ∈ ["Open"; "High"; "Low"] -> is_Some (frame_cols data !! k).
Hypothesis Hpos : (0 < frame_len data)%nat.

Local Abbreviation n := (length closes).
Local Abbreviation price := (nth_close closes (length closes - 1)).
Local Abbreviation sma := (mean_over (nth_close closes) 20 (length closes - 1)).

(** everything the program prints on a frame of defined closes *)
Lemma cli_main_output :
  exists ohlc : frame,
    getitems data ["Open"; "High"; "Low"; "Close"] = Ok ohlc /\
    Cli.main yf_history =
      ([Line "🤖 Trading Robot Starting...";
        Line (str_mul "=" 50);
        Line "📊 Getting data for GC=F";
        Line ("✅ Successfully got " +:+ pretty n +:+ " data points");
        Line ("📈 Latest price: $" +:+ fmt_f 2 (Fin price))]
       ++ (if (n <? 20)%nat then []
           else [Line ("📊 20-day Moving Average: $" +:+ fmt_f 2 (Fin sma));
                 if Fl.Qltb sma price then Cli.buy_line else Cli.sell_line])
       ++ [Line (LF +:+ "📋 Last 3 days of data:");
           Table (tail 3 ohlc);
           Line (LF +:+ "🤖 Trading Robot Finished!")],
       Ok tt).
Proof.
  assert (Hn : n = frame_len data).
  { rewrite <- (Hwf _ _ Hclose). by rewrite length_fmap. }
  destruct (select_ok data ["Open"; "High"; "Low"; "Close"]) as [m Hm].
  { intros k Hk. rewrite !elem_of_cons in Hk.
    destruct Hk as [->|[->|[->|[->|Hk]]]];
      [apply Hohl; set_solver.. | by rewrite Hclose | by apply elem_of_nil in Hk]. }
  exists (Frame (frame_index data) m).
  split; [unfold getitems; by rewrite Hm|].
  assert (Hlast : latest data "Close" = Ok (Fin price)).
  { destruct (latest_wf data "Close" _ Hwf Hpos Hclose) as (x & Hx & Hix).
    rewrite <- Hn, list_lookup_fmap, nth_close_lookup in Hix by lia.
    injection Hix as <-. exact Hx. }
  assert (Hsma : simple_moving_average data 20 = Ok (Rolling.mean 20 (Fin <$> closes))).
  { unfold simple_moving_average. by rewrite Hclose. }
  assert (Hget : getitems data ["Open"; "High"; "Low"; "Close"]
                 = Ok (Frame (frame_index data) m)).
  { unfold getitems. by rewrite Hm. }
  unfold Cli.main, Cli.get_market_data. rewrite Hfetch.
  cbn [Out.bind Out.print Out.ret Out.eval Out.print_frame app].
  rewrite <- Hn, Hlast.
  cbn [Out.bind Out.print Out.ret Out.eval Out.print_frame app].
  rewrite Hsma.
  cbn [Out.bind Out.print Out.ret Out.eval Out.print_frame app].
  rewrite latest_mean_20 by lia.
  destruct (Nat.ltb_spec n 20) as [Hlt|Hge];
    cbn [Fl.isnan negb Out.bind Out.print Out.ret Out.eval Out.print_frame app].
  - rewrite Hget. reflexivity.
  - rewrite ?Hlast.
    cbn [Out.bind Out.print Out.ret Out.eval Out.print_frame app Fl.gtb Fl.ltb].
    destruct (Fl.Qltb sma price);
      cbn [Out.bind Out.print Out.ret Out.eval Out.print_frame app];
      rewrite Hget; reflexivity.
Qed.

End CliRun.

Ltac other_line :=
  let H := fresh in
  intros H; unfold Cli.buy_line, Cli.sell_line, LF in H;
  cbn [String.append str_mul] in H; discriminate H.

(** ** The lines of the command-line program, on any closes *)

Section CliTrace.

Variable yf_history : string -> string -> frame + string.
Variable data : frame.
Variable close : Series.t.
Hypothesis Hfetch : yf_history "GC=F" "1mo" = inl data.
Hypothesis Hwf : frame_wf data.
Hypothesis Hclose : frame_cols data !! "Close" = Some close.
Hypothesis Hohl : forall k, k ∈ ["Open"; "High"; "Low"] -> is_Some (frame_cols data !! k).
Hypothesis Hpos : (0 < frame_len data)%nat.

(** everything the program prints, from the latest close [p] and the latest
    cell [s] of its moving average *)
Lemma cli_main_trace :
  exists (ohlc : frame) (p s : fl),
    latest data "Close" = Ok p /\
    Series.iloc_last (Rolling.mean 20 close) = Some s /\
    ((frame_len data < 20)%nat -> s = NaN) /\
    Cli.main yf_history =
      ([Line "🤖 Trading Robot Starting...";
        Line (str_mul "=" 50);
        Line "📊 Getting data for GC=F";
        Line ("✅ Successfully got " +:+ pretty (frame_len data) +:+ " data points");
        Line ("📈 Latest price: $" +:+ fmt_f 2 p)]
       ++ (if Fl.isnan s then []
           else [Line ("📊 20-day Moving Average: $" +:+ fmt_f 2 s);
                 if (p >? s)%fl then Cli.buy_line else Cli.sell_line])
       ++ [Line (LF +:+ "📋 Last 3 days of data:");
           Table (tail 3 ohlc);
           Line (LF +:+ "🤖 Trading Robot Finished!")],
       Ok tt).
Proof.
  pose proof (Hwf _ _ Hclose) as Hn.
  destruct (select_ok data ["Open"; "High"; "Low"; "Close"]) as [m Hm].
  { intros k Hk. rewrite !elem_of_cons in Hk.
    destruct Hk as [->|[->|[->|[->|Hk]]]];
      [apply Hohl; set_solver.. | by rewrite Hclose | by apply elem_of_nil in Hk]. }
  destruct (latest_wf data "Close" _ Hwf Hpos Hclose) as (p & Hlast & _).
  destruct (lookup_lt_is_Some_2 (Rolling.mean 20 close) (frame_len data - 1))
    as [s Hs]; [rewrite mean_length; lia|].
  assert (Hsl : Series.iloc_last (Rolling.mean 20 close) = Some s).
  { unfold Series.iloc_last. rewrite last_lookup, mean_length, Hn.
    by replace (Nat.pred (frame_len data)) with (frame_len data - 1)%nat by lia. }
  exists (Frame (frame_index data) m), p, s.
  split; [exact Hlast|]. split; [exact Hsl|].
  split.
  { intros Hlt.
    rewrite (mean_undefined_before 20 close (frame_len data - 1)%nat) in Hs;
      [by injection Hs as <- | lia | rewrite mean_length; lia]. }
  assert (Hsma : simple_moving_average data 20 = Ok (Rolling.mean 20 close)).
  { unfold simple_moving_average. by rewrite Hclose. }
  assert (Hget : getitems data ["Open"; "High"; "Low"; "Close"]
                 = Ok (Frame (frame_index data) m)).
  { unfold getitems. by rewrite Hm. }
  unfold Cli.main, Cli.get_market_data. rewrite Hfetch.
  cbn [Out.bind Out.print Out.ret Out.eval Out.print_frame app].
  rewrite Hlast.
  cbn [Out.bind Out.print Out.ret Out.eval Out.print_frame app].
  rewrite Hsma.
  cbn [Out.bind Out.print Out.ret Out.eval Out.print_frame app].
  rewrite Hsl.
  destruct (Fl.isnan s);
    cbn [negb Out.bind Out.print Out.ret Out.eval Out.print_frame app].
  - rewrite Hget. reflexivity.
  - rewrite ?Hlast.
    cbn [Out.bind Out.print Out.ret Out.eval Out.print_frame app].
    destruct (p >? s)%fl;
      cbn [Out.bind Out.print Out.ret Out.eval Out.print_frame app];
      rewrite Hget; reflexivity.
Qed.

End CliTrace.

(** X10. On a well-formed frame with the four price columns and at least one
    bar the command-line program runs to its end.  It prints its BUY line
    exactly when the latest cell of its 20-bar moving average is defined and
    the latest close is above it, and its SELL line exactly when that cell is
    defined and the latest close is not above it.  With fewer than 20 bars
    the cell is undefined and it prints neither. *)
Theorem cli_signal_lines (yf_history : string -> string -> frame + string)
    (data : frame) (close : Series.t) :
  yf_history "GC=F" "1mo" = inl data ->
  frame_wf data ->
  frame_cols data !! "Close" = Some close ->
  (forall k, k ∈ ["Open"; "High"; "Low"] -> is_Some (frame_cols data !! k)) ->
  (0 < frame_len data)%nat ->
  exists (sma : Series.t) (p s : fl),
    latest data "Close" = Ok p /\
    simple_moving_average data 20 = Ok sma /\
    Series.iloc_last sma = Some s /\
    (Cli.main yf_history).2 = Ok tt /\
    (Cli.buy_line ∈ (Cli.main yf_history).1 <->
     Fl.isnan s = false /\ (p >? s)%fl = true) /\
    (Cli.sell_line ∈ (Cli.main yf_history).1 <->
     Fl.isnan s = false /\ (p >? s)%fl = false) /\
    ((frame_len data < 20)%nat -> s = NaN).
Proof.
  intros Hfetch Hwf Hclose Hohl Hpos.
  destruct (cli_main_trace yf_history data close Hfetch Hwf Hclose Hohl Hpos)
    as (ohlc & p & s & Hp & Hs & Hshort & ->).
  exists (Rolling.mean 20 close), p, s.
  split; [exact Hp|].
  split; [unfold simple_moving_average; by rewrite Hclose|].
  split; [exact Hs|].
  cbn [fst snd]. split; [reflexivity|].
  split; [|split; [|exact Hshort]].
  all: assert (Hbuy_sell : Cli.buy_line <> Cli.sell_line) by other_line.
  all: assert (Hpre : forall x : out, x = Cli.buy_line \/ x = Cli.sell_line ->
            ~ x ∈ [Line "🤖 Trading Robot Starting..."; Line (str_mul "=" 50);
                   Line "📊 Getting data for GC=F";
                   Line ("✅ Successfully got " +:+ pretty (frame_len data)
                         +:+ " data points");
                   Line ("📈 Latest price: $" +:+ fmt_f 2 p)])
    by (intros x Hx Hin; rewrite !elem_of_cons, elem_of_nil in Hin;
        destruct Hx as [-> | ->];
        destruct Hin as [H|[H|[H|[H|[H|[ ]]]]]]; revert H; other_line).
  all: assert (Hsuf : forall x : out, x = Cli.buy_line \/ x = Cli.sell_line ->
            ~ x ∈ [Line (LF +:+ "📋 Last 3 days of data:"); Table (tail 3 ohlc);
                   Line (LF +:+ "🤖 Trading Robot Finished!")])
    by (intros x Hx Hin; rewrite !elem_of_cons, elem_of_nil in Hin;
        destruct Hx as [-> | ->];
        destruct Hin as [H|[H|[H|[ ]]]]; revert H; other_line).
  all: assert (Hma : forall x : out, x = Cli.buy_line \/ x = Cli.sell_line ->
            x <> Line ("📊 20-day Moving Average: $" +:+ fmt_f 2 s))
    by (intros x [-> | ->]; other_line).
  all: revert Hpre Hsuf;
    generalize [Line "🤖 Trading Robot Starting..."; Line (str_mul "=" 50);
                Line "📊 Getting data for GC=F";
                Line ("✅ Successfully got " +:+ pretty (frame_len data)
                      +:+ " data points");
                Line ("📈 Latest price: $" +:+ fmt_f 2 p)];
    generalize [Line (LF +:+ "📋 Last 3 days of data:"); Table (tail 3 ohlc);
                Line (LF +:+ "🤖 Trading Robot Finished!")];
    intros suf pre Hpre Hsuf;
    rewrite !elem_of_app.
  - destruct (Fl.isnan s).
    + rewrite elem_of_nil. split; [|intros [? _]; discriminate].
      intros [H|[[ ]|H]]; exfalso; [eapply Hpre | eapply Hsuf]; try exact H; auto.
    + rewrite !elem_of_cons, elem_of_nil. destruct (p >? s)%fl.
      * split; [intros _; by split | intros _; right; left; right; by left].
      * split; [|intros [_ ?]; discriminate].
        intros [H|[[H|[H|[ ]]]|H]]; exfalso.
        -- eapply Hpre; [|exact H]; auto.
        -- eapply Hma; [|exact H]; auto.
        -- by apply Hbuy_sell.
        -- eapply Hsuf; [|exact H]; auto.
  - destruct (Fl.isnan s).
    + rewrite elem_of_nil. split; [|intros [? _]; discriminate].
      intros [H|[[ ]|H]]; exfalso; [eapply Hpre | eapply Hsuf]; try exact H; auto.
    + rewrite !elem_of_cons, elem_of_nil. destruct (p >? s)%fl.
      * split; [|intros [_ ?]; discriminate].
        intros [H|[[H|[H|[ ]]]|H]]; exfalso.
        -- eapply Hpre; [|exact H]; auto.
        -- eapply Hma; [|exact H]; auto.
        -- by apply Hbuy_sell.
        -- eapply Hsuf; [|exact H]; auto.
      * split; [intros _; by split | intros _; right; left; right; by left].
Qed.

(** X11. When the provider returns a frame without rows, the command-line program
    stops with an exception at the latest price, right after it has printed
    the number of data points: [IndexError] from [iloc[-1]], or [KeyError] when
    there is no [Close] column.  It does not reach its last line. *)
Theorem cli_empty_frame_raises (yf_history : string -> string -> frame + string)
    (data : frame) :
  yf_history "GC=F" "1mo" = inl data ->
  frame_wf data ->
  frame_len data = 0%nat ->
  exists e : exn,
    Cli.main yf_history =
      ([Line "🤖 Trading Robot Starting...";
        Line (str_mul "=" 50);
        Line "📊 Getting data for GC=F";
        Line "✅ Successfully got 0 data points"],
       Raise e) /\
    (e = IndexError \/ e = KeyError "Close").
Proof.
  intros Hfetch Hwf Hlen.
  assert (Hlast : latest data "Close" = Raise IndexError
                  \/ latest data "Close" = Raise (KeyError "Close")).
  { unfold latest. destruct (frame_cols data !! "Close") as [c|] eqn:Hc; [|by right].
    left. apply Hwf in Hc. rewrite Hlen in Hc.
    by destruct c. }
  unfold Cli.main, Cli.get_market_data. rewrite Hfetch.
  cbn [Out.bind Out.print Out.ret Out.eval Out.print_frame app].
  rewrite Hlen.
  destruct Hlast as [-> | ->]; eexists; (split; [reflexivity|]); auto.
Qed.

(** X12. The two programs agree on the direction: on the same frame, whenever the
    dashboard's signal is BUY the command-line program prints its BUY line, and
    whenever it is SELL the command-line program prints its SELL line. *)
Theorem cli_agrees_with_dashboard (fsqrt : Q -> Q)
    (yf_history : string -> string -> frame + string)
    (h : heap) (d : loc) (data : frame) (closes : list Q)
    (k : kind) (reason : string) (conf : fl) :
  yf_history "GC=F" "1mo" = inl data ->
  h !! d = Some data ->
  frame_wf data ->
  frame_cols data !! "Close" = Some (Fin <$> closes) ->
  (forall c, c ∈ ["Open"; "High"; "Low"] -> is_Some (frame_cols data !! c)) ->
  dashboard_signal fsqrt (Some d) h = Ok (Some (k, reason, conf)) ->
  (k = BUY -> Cli.buy_line ∈ (Cli.main yf_history).1) /\
  (k = SELL -> Cli.sell_line ∈ (Cli.main yf_history).1).
Proof.
  intros Hfetch Hd Hwf Hclose Hohl Hsig.
  assert (Hlen : (20 <= frame_len data)%nat).
  { destruct (Nat.lt_ge_cases (frame_len data) 20) as [Hlt|Hge]; [|exact Hge].
    by rewrite (dashboard_signal_short fsqrt h d data Hd Hlt) in Hsig. }
  pose proof (closes_length data closes Hwf Hclose) as Hn.
  destruct (cli_main_output yf_history data closes Hfetch Hwf Hclose Hohl ltac:(lia))
    as (ohlc & _ & ->).
  cbn [fst].
  rewrite (dashboard_signal_cells fsqrt h d data closes Hd Hwf Hclose Hlen) in Hsig.
  cbv zeta in Hsig.
  destruct (Nat.ltb_spec (length closes) 20) as [?|_]; [lia|].
  set (r := rsi_cell _ _) in Hsig.
  set (s := mean_over (nth_close closes) 20 (length closes - 1)) in *.
  set (c := nth_close closes (length closes - 1)) in *.
  change (Fin c >? Fin s)%fl with (Fl.Qltb s c) in Hsig.
  destruct (Fl.isnan r); [by injection Hsig as <- _ _; split|].
  destruct (Fl.Qltb s c); cbn [andb negb] in Hsig.
  - destruct (r <? Fin 70)%fl; injection Hsig as <- _ _;
      (split; [intros _|discriminate]);
      rewrite !elem_of_app; right; left; set_solver.
  - destruct (r >? Fin 30)%fl; injection Hsig as <- _ _;
      (split; [discriminate|intros _]);
      rewrite !elem_of_app; right; left; set_solver.
Qed.

(** * src/dashboard.py: the chart *)

(** X13. The chart is built exactly when the frame has the ten columns it reads;
    otherwise it raises [KeyError] for the first one that is missing, in the
    order Open, High, Low, Close, SMA_20, SMA_50, BB_Upper, BB_Lower, Volume,
    RSI. *)
Theorem chart_key_errors (data : frame) (symbol : string) :
  match first_missing data chart_columns with
  | Some k => create_candlestick_chart data symbol = Raise (KeyError k)
  | None => exists fig, create_candlestick_chart data symbol = Ok fig
  end.
Proof.
  unfold create_candlestick_chart, chart_columns, first_missing, column.
  repeat match goal with
         | |- context [frame_cols data !! ?k] =>
             destruct (frame_cols data !! k); cbn [res_bind]; [|reflexivity]
         end.
  eexists. reflexivity.
Qed.

Lemma chart_ok (data : frame) (symbol : string) (o hi lo c s20 s50 up low v r : Series.t) :
  frame_cols data !! "Open" = Some o -> frame_cols data !! "High" = Some hi ->
  frame_cols data !! "Low" = Some lo -> frame_cols data !! "Close" = Some c ->
  frame_cols data !! "SMA_20" = Some s20 -> frame_cols data !! "SMA_50" = Some s50 ->
  frame_cols data !! "BB_Upper" = Some up -> frame_cols data !! "BB_Lower" = Some low ->
  frame_cols data !! "Volume" = Some v -> frame_cols data !! "RSI" = Some r ->
  exists fig,
    create_candlestick_chart data symbol = Ok fig /\
    fst <$> (fst <$> Plot.fig_traces fig) =
      [Plot.Candlestick (frame_index data) o hi lo c "Price" "#00ff88" "#ff4444";
       Plot.Scatter (frame_index data) s20 "SMA 20" "#ff9500" 2 None;
       Plot.Scatter (frame_index data) s50 "SMA 50" "#0099ff" 2 None;
       Plot.Scatter (frame_index data) up "BB Upper" "rgba(128,128,128,0.5)" 1 None;
       Plot.Scatter (frame_index data) low "BB Lower" "rgba(128,128,128,0.5)" 1
         (Some ("tonexty", "rgba(128,128,128,0.1)"));
       Plot.Bar (frame_index data) v "Volume" "rgba(158,202,225,0.6)";
       Plot.Scatter (frame_index data) r "RSI" "purple" 2 None].
Proof.
  intros Ho Hhi Hlo Hc H20 H50 Hup Hlow Hv Hr.
  unfold create_candlestick_chart, column.
  rewrite Ho, Hhi, Hlo, Hc, H20, H50, Hup, Hlow, Hv, Hr. cbn [res_bind].
  eexists. split; reflexivity.
Qed.

(** X14. After the engine has run on a well-formed frame of at least 20 bars with
    the columns Open, High, Low, Close and Volume, the chart is built without
    an exception: seven traces, each over the index of the frame and each of
    its series with one cell per bar.  On the frame as it was fetched, without
    the engine's columns, the chart raises [KeyError] for SMA_20. *)
Theorem chart_after_engine (fsqrt : Q -> Q) (h : heap) (d : loc) (f : frame)
    (symbol : string) :
  h !! d = Some f -> frame_wf f -> (20 <= frame_len f)%nat ->
  (forall k, k ∈ ["Open"; "High"; "Low"; "Close"; "Volume"] ->
     is_Some (frame_cols f !! k)) ->
  (frame_cols f !! "SMA_20" = None ->
   create_candlestick_chart f symbol = Raise (KeyError "SMA_20")) /\
  exists (h' : heap) (f' : frame) (fig : Plot.figure),
    calculate_technical_indicators fsqrt (Some d) h = Ok (Some d, h') /\
    h' !! d = Some f' /\
    create_candlestick_chart f' symbol = Ok fig /\
    length (Plot.fig_traces fig) = 7%nat /\
    forall (t : Plot.trace) (row col : nat),
      (t, row, col) ∈ Plot.fig_traces fig ->
      Plot.x_of t = frame_index f /\
      forall s, s ∈ Plot.series_of t -> length s = frame_len f.
Proof.
  intros Hd Hwf Hlen Hcols.
  destruct (Hcols "Open") as [o Ho]; [set_solver|].
  destruct (Hcols "High") as [hi Hhi]; [set_solver|].
  destruct (Hcols "Low") as [lo Hlo]; [set_solver|].
  destruct (Hcols "Close") as [c Hc]; [set_solver|].
  destruct (Hcols "Volume") as [v Hv]; [set_solver|].
  split.
  { intros Hnone. unfold create_candlestick_chart, column.
    by rewrite Ho, Hhi, Hlo, Hc, Hnone. }
  set (f' := Frame (frame_index f) (enriched_cols fsqrt c (frame_cols f))).
  assert (Hwf' : frame_wf f') by (by apply enriched_wf).
  assert (Hother : forall k, k ∈ ["Open"; "High"; "Low"; "Close"; "Volume"] ->
            frame_cols f' !! k = frame_cols f !! k).
  { intros k Hk. cbn [f' frame_cols]. apply enriched_other.
    unfold indicator_names. rewrite !elem_of_cons, elem_of_nil in Hk.
    rewrite !not_elem_of_cons.
    destruct Hk as [->|[->|[->|[->|[->|[ ]]]]]]; repeat split; try done;
      apply not_elem_of_nil. }
  destruct (chart_ok f' symbol o hi lo c
              (Rolling.mean 20 c) (Rolling.mean 50 c)
              (Locals.bb_upper fsqrt c) (Locals.bb_lower fsqrt c) v (Locals.rsi c))
    as (fig & Hfig & Htr).
  1-4: (rewrite Hother by set_solver; assumption).
  1-4: (cbn [f' frame_cols];
        first [apply enriched_sma_20 | apply enriched_sma_50
              | apply enriched_bb_upper | apply enriched_bb_lower]).
  { rewrite Hother by set_solver. assumption. }
  { apply enriched_rsi. }
  exists (<[d := f']> h), f', fig.
  split; [by apply calculate_run|].
  split; [apply lookup_insert_eq|].
  split; [exact Hfig|].
  split.
  { rewrite <- (length_fmap fst), <- (length_fmap fst), Htr. reflexivity. }
  intros t row col Hin.
  assert (Ht : t ∈ fst <$> (fst <$> Plot.fig_traces fig)).
  { apply list_elem_of_fmap. exists (t, row). split; [reflexivity|].
    apply list_elem_of_fmap. exists (t, row, col). by split. }
  rewrite Htr in Ht. rewrite !elem_of_cons, elem_of_nil in Ht.
  assert (Hl : forall k s, frame_cols f' !! k = Some s -> length s = frame_len f).
  { intros k s Hs. by rewrite (Hwf' _ _ Hs). }
  destruct Ht as [->|[->|[->|[->|[->|[->|[->|[ ]]]]]]]]; cbn [Plot.x_of Plot.series_of];
    (split; [reflexivity|]); intros s Hs;
    rewrite !elem_of_cons, elem_of_nil in Hs.
  - destruct Hs as [->|[->|[->|[->|[ ]]]]];
      [apply (Hl "Open") | apply (Hl "High") | apply (Hl "Low") | apply (Hl "Close")];
      cbn [f' frame_cols]; (rewrite Hother by set_solver); assumption.
  - destruct Hs as [->|[ ]]. eapply Hl. apply enriched_sma_20.
  - destruct Hs as [->|[ ]]. eapply Hl. apply enriched_sma_50.
  - destruct Hs as [->|[ ]]. eapply Hl. apply enriched_bb_upper.
  - destruct Hs as [->|[ ]]. eapply Hl. apply enriched_bb_lower.
  - destruct Hs as [->|[ ]]. apply (Hl "Volume").
    cbn [f' frame_cols]. rewrite Hother by set_solver. assumption.
  - destruct Hs as [->|[ ]]. eapply Hl. apply enriched_rsi.
Qed.

(** ** The RSI cell under a common factor *)

Lemma Qltb_scale (c a b a' b' : Q) :
  0 < c -> a' == c * a -> b' == c * b -> Fl.Qltb a' b' = Fl.Qltb a b.
Proof.
  intros Hc Ha Hb. rewrite (Qltb_comp a' (c * a) b' (c * b) Ha Hb).
  destruct (Qltb_spec a b) as [H|H].
  - apply Qltb_lt. nra.
  - apply Qltb_ge. apply Qnot_lt_le in H. nra.
Qed.

Lemma Qzerob_scale (c a a' : Q) :
  0 < c -> a' == c * a -> Fl.Qzerob a' = Fl.Qzerob a.
Proof.
  intros Hc Ha. rewrite (Qzerob_comp a' (c * a) Ha).
  destruct (Qzerob_spec a) as [H|H].
  - apply Qzerob_eq. rewrite H. ring.
  - apply Qzerob_neq. intros H0. apply H.
    apply Qmult_integral in H0 as [H0|H0]; [lra | exact H0].
Qed.

Lemma eqv_sym (x y : fl) : Fl.eqv x y -> Fl.eqv y x.
Proof. destruct x, y; cbn; try tauto. intros H. by symmetry. Qed.

(** a quotient of two cells does not change when both are scaled *)
Lemma ratio_scale (c a b a' b' : Q) :
  0 < c -> a' == c * a -> b' == c * b ->
  Fl.eqv (Fin a' / Fin b') (Fin a / Fin b).
Proof.
  intros Hc Ha Hb. cbn [Fl.div].
  rewrite (Qzerob_scale c b b' Hc Hb), (Qzerob_scale c a a' Hc Ha).
  rewrite (Qltb_scale c 0 a 0 a' Hc); [| ring | exact Ha].
  destruct (Qzerob_spec b) as [Hb0|Hb0]; [apply eqv_refl|].
  cbn. rewrite Ha, Hb. field. split; [exact Hb0 | lra].
Qed.

Lemma rsi_cell_scale (c g l g' l' : Q) :
  0 < c -> g' == c * g -> l' == c * l ->
  Fl.eqv (rsi_cell (Fin g') (Fin l')) (rsi_cell (Fin g) (Fin l)).
Proof.
  intros Hc Hg Hl. unfold rsi_cell.
  apply sub_eqv; [apply eqv_refl|].
  apply div_eqv; [apply eqv_refl|].
  apply add_eqv; [apply eqv_refl|].
  by apply (ratio_scale c).
Qed.

(** ** Prices moved by a constant *)

Lemma nth_close_shift (k : Q) (closes : list Q) (j : nat) :
  (j < length closes)%nat ->
  nth_close (Qplus k <$> closes) j == k + nth_close closes j.
Proof.
  intros Hj. unfold nth_close. rewrite list_lookup_fmap.
  destruct (lookup_lt_is_Some_2 closes j Hj) as [x ->]. reflexivity.
Qed.

Lemma rise_fall_shift (k : Q) (closes : list Q) (j : nat) :
  (j < length closes)%nat ->
  rise (Qplus k <$> closes) j == 1 * rise closes j /\
  fall (Qplus k <$> closes) j == 1 * fall closes j.
Proof.
  intros Hj. unfold rise, fall, change. destruct j as [|j]; [split; ring|].
  pose proof (nth_close_shift k closes (S j) Hj) as H1.
  pose proof (nth_close_shift k closes j ltac:(lia)) as H2.
  assert (E : nth_close (Qplus k <$> closes) (S j) - nth_close (Qplus k <$> closes) j
              == nth_close closes (S j) - nth_close closes j)
    by (rewrite H1, H2; ring).
  rewrite (Qltb_comp 0 0 _ _ (Qeq_refl 0) E), (Qltb_comp _ _ 0 0 E (Qeq_refl 0)).
  split.
  - destruct (Fl.Qltb 0 _); [rewrite E|]; ring.
  - destruct (Fl.Qltb _ 0); [rewrite E|]; ring.
Qed.

Lemma Qsum_scale_on (c : Q) (cell cell' : nat -> Q) (l : list nat) :
  (forall j, j ∈ l -> cell' j == c * cell j) ->
  Rolling.Qsum (cell' <$> l) == c * Rolling.Qsum (cell <$> l).
Proof.
  induction l as [|j l IH]; intros H.
  - change (0 == c * 0). ring.
  - rewrite !fmap_cons, !Qsum_cons, IH, H; [ring | by left |].
    intros j' Hj'. apply H. by right.
Qed.

Lemma mean_over_scale_on (c : Q) (cell cell' : nat -> Q) (w i : nat) :
  (0 < w)%nat ->
  (forall j, (S i - w <= j)%nat -> (j < S i - w + w)%nat -> cell' j == c * cell j) ->
  mean_over cell' w i == c * mean_over cell w i.
Proof.
  intros Hw H. unfold mean_over. rewrite (Qsum_scale_on c cell cell').
  - pose proof (inject_nat_pos w Hw). field. lra.
  - intros j Hj. apply elem_of_seq in Hj. apply H; lia.
Qed.

(** X17. The RSI looks at price changes only: when the same constant is added to
    every close, each cell of the RSI column keeps its value. *)
Theorem rsi_shift_invariant (fsqrt : Q -> Q) (k : Q) (closes : list Q)
    (h1 h2 : heap) (d1 d2 : loc) (f1 f2 : frame) :
  h1 !! d1 = Some f1 ->
  frame_cols f1 !! "Close" = Some (Fin <$> closes) ->
  h2 !! d2 = Some f2 ->
  frame_cols f2 !! "Close" = Some (Fin <$> (Qplus k <$> closes)) ->
  (20 <= frame_len f1)%nat -> (20 <= frame_len f2)%nat ->
  exists (h1' h2' : heap) (f1' f2' : frame) (rsi1 rsi2 : Series.t),
    calculate_technical_indicators fsqrt (Some d1) h1 = Ok (Some d1, h1') /\
    calculate_technical_indicators fsqrt (Some d2) h2 = Ok (Some d2, h2') /\
    h1' !! d1 = Some f1' /\ h2' !! d2 = Some f2' /\
    frame_cols f1' !! "RSI" = Some rsi1 /\ frame_cols f2' !! "RSI" = Some rsi2 /\
    length rsi1 = length rsi2 /\
    forall (i : nat) (r1 r2 : fl),
      rsi1 !! i = Some r1 -> rsi2 !! i = Some r2 -> Fl.eqv r1 r2.
Proof.
  intros Hd1 Hc1 Hd2 Hc2 Hlen1 Hlen2. eexists _, _, _, _, _, _.
  split; [by apply calculate_run|]. split; [by apply calculate_run|].
  split; [apply lookup_insert_eq|]. split; [apply lookup_insert_eq|].
  split; [apply enriched_rsi|]. split; [apply enriched_rsi|].
  split; [by rewrite !rsi_length, !length_fmap|].
  intros i r1 r2 H1 H2.
  assert (Hi : (i < length closes)%nat).
  { apply lookup_lt_Some in H1. by rewrite rsi_length, length_fmap in H1. }
  destruct (Nat.lt_ge_cases i 13) as [Hlt|Hge].
  - rewrite (rsi_undefined_before _ i Hlt) in H1
      by (by rewrite rsi_length, length_fmap).
    rewrite (rsi_undefined_before _ i Hlt) in H2
      by (by rewrite rsi_length, !length_fmap).
    injection H1 as <-. injection H2 as <-. exact I.
  - rewrite rsi_closed in H1 by assumption.
    rewrite rsi_closed in H2 by (rewrite ?length_fmap; assumption).
    injection H1 as <-. injection H2 as <-.
    apply eqv_sym. apply (rsi_cell_scale 1); [reflexivity | |];
      (apply mean_over_scale_on; [lia|]); intros j Hj1 Hj2;
      apply rise_fall_shift; lia.
Qed.

(** ** Where the confidence reaches its cap *)

(** X18. With a positive SMA_20, the confidence of a BUY or SELL signal is 50
    plus 1000 times the distance of the close from the SMA_20 relative to the
    SMA_20, as long as that distance is below 3 percent, and it is the cap of
    80 from 3 percent on. *)
Theorem confidence_cap (data : frame) (c s : Q) (r : fl)
    (k : kind) (reason : string) (conf : fl) :
  (20 <= frame_len data)%nat ->
  latest data "Close" = Ok (Fin c) ->
  latest data "SMA_20" = Ok (Fin s) ->
  latest data "RSI" = Ok r ->
  0 < s ->
  generate_signal (Some data) = Ok (k, reason, conf) ->
  k = BUY \/ k = SELL ->
  exists q : Q,
    conf = Fin q /\
    (Qabs (c - s) / s < 3 # 100 -> q == 50 + Qabs (c - s) / s * 1000) /\
    (3 # 100 <= Qabs (c - s) / s -> q == 80).
Proof.
  intros Hlen Hc Hs Hr Hpos Hsig Hk.
  rewrite (generate_signal_long _ Hlen), Hc, Hs, Hr in Hsig. cbn [res_bind] in Hsig.
  assert (Hfin : forall num : Q, 0 <= num ->
            exists q, Fl.pymin (Fin 80) (Fin 50 + Fin num / Fin s * Fin 1000)%fl = Fin q /\
                      (num / s < 3 # 100 -> q == 50 + num / s * 1000) /\
                      (3 # 100 <= num / s -> q == 80)).
  { intros num Hnum. cbn [Fl.div].
    destruct (Qzerob_spec s) as [H0|_]; [lra|].
    cbn [Fl.mul Fl.add]. unfold Fl.pymin. cbn [Fl.ltb].
    assert (Hx : 0 <= num / s) by (by apply Qdiv_nonneg).
    destruct (Qltb_spec (50 + num / s * 1000) 80) as [Hlt|Hge].
    - eexists; split; [reflexivity|]. split; intros; [reflexivity | lra].
    - apply Qnot_lt_le in Hge. exists 80. split; [reflexivity|].
      split; intros; [lra | reflexivity]. }
  destruct (Fl.isnan (Fin s) || Fl.isnan r);
    [injection Hsig as <- _ _; destruct Hk; discriminate|].
  change (Fin c >? Fin s)%fl with (Fl.Qltb s c) in Hsig.
  destruct (Qltb_spec s c) as [Hlt|Hnlt]; cbn [andb negb] in Hsig.
  - destruct (r <? Fin 70)%fl;
      [|injection Hsig as <- _ _; destruct Hk; discriminate].
    injection Hsig as _ _ <-. cbn [Fl.sub].
    destruct (Hfin (c - s) ltac:(lra)) as (q & Hq & H1 & H2).
    exists q. rewrite Qabs_pos by lra. by repeat split.
  - apply Qnot_lt_le in Hnlt.
    destruct (r >? Fin 30)%fl;
      [|injection Hsig as <- _ _; destruct Hk; discriminate].
    injection Hsig as _ _ <-. cbn [Fl.sub].
    destruct (Hfin (s - c) ltac:(lra)) as (q & Hq & H1 & H2).
    exists q.
    assert (E : Qabs (c - s) == s - c).
    { rewrite Qabs_neg by lra. ring. }
    rewrite E. by repeat split.
Qed.

(** * The further properties at concrete inputs *)

Lemma frame_of_closes_wf (closes : list Q) : frame_wf (frame_of_closes closes).
Proof.
  intros k c. unfold frame_of_closes, frame_len. cbn [frame_cols frame_index].
  rewrite !lookup_insert. repeat case_decide; rewrite ?lookup_empty;
    intros [= <-]; by rewrite !length_fmap, ?length_seq.
Qed.

Lemma frame_of_closes_columns (closes : list Q) (k : string) :
  k ∈ ["Open"; "High"; "Low"; "Close"; "Volume"] ->
  is_Some (frame_cols (frame_of_closes closes) !! k).
Proof.
  rewrite !elem_of_cons, elem_of_nil.
  intros [->|[->|[->|[->|[->|[ ]]]]]]; eexists; reflexivity.
Qed.

Lemma engine_missing_close_witness :
  calculate_technical_indicators approx_sqrt (Some 1%positive) (heap_of volume_only20)
  = Raise (KeyError "Close").
Proof.
  apply (engine_missing_close approx_sqrt (heap_of volume_only20) 1%positive
           volume_only20); [reflexivity | reflexivity | vm_compute; lia].
Defined.

Lemma generate_signal_key_errors_witness :
  generate_signal (Some climb_raw) = Raise (KeyError "SMA_20").
Proof.
  refine (proj1 (proj2 (generate_signal_key_errors climb_raw _ _)) _ _);
    [vm_compute; lia | apply frame_of_closes_wf | eexists; reflexivity | reflexivity].
Defined.

Lemma engine_idempotent_witness :
  calculate_technical_indicators approx_sqrt (Some 1%positive) (heap_after climb_raw)
  = Ok (Some 1%positive, heap_after climb_raw).
Proof.
  apply (engine_idempotent approx_sqrt (heap_of climb_raw) (heap_after climb_raw)
           1%positive (Some 1%positive)).
  vm_compute. reflexivity.
Defined.

Lemma cli_empty_frame_raises_witness :
  exists e : exn,
    Cli.main (provider_of (frame_of_closes [])) =
      ([Line "🤖 Trading Robot Starting...";
        Line (str_mul "=" 50);
        Line "📊 Getting data for GC=F";
        Line "✅ Successfully got 0 data points"],
       Raise e) /\
    (e = IndexError \/ e = KeyError "Close").
Proof.
  apply (cli_empty_frame_raises (provider_of (frame_of_closes [])) (frame_of_closes []));
    [reflexivity | apply frame_of_closes_wf | reflexivity].
Defined.

Lemma cli_agrees_with_dashboard_witness :
  (BUY = BUY -> Cli.buy_line ∈ (Cli.main (provider_of climb_raw)).1) /\
  (BUY = SELL -> Cli.sell_line ∈ (Cli.main (provider_of climb_raw)).1).
Proof.
  apply (cli_agrees_with_dashboard approx_sqrt (provider_of climb_raw)
           (heap_of climb_raw) 1%positive climb_raw climb20
           BUY "Price above SMA20, RSI: 66.7" (Fin 80));
    [reflexivity | reflexivity | apply frame_of_closes_wf | reflexivity
    | | vm_compute; reflexivity].
  intros k Hk. apply frame_of_closes_columns.
  rewrite !elem_of_cons, elem_of_nil in Hk.
  destruct Hk as [->|[->|[->|[ ]]]]; repeat constructor.
Defined.

Lemma chart_after_engine_witness :
  (frame_cols climb_raw !! "SMA_20" = None ->
   create_candlestick_chart climb_raw "Gold (GC=F)" = Raise (KeyError "SMA_20")) /\
  exists (h' : heap) (f' : frame) (fig : Plot.figure),
    calculate_technical_indicators approx_sqrt (Some 1%positive) (heap_of climb_raw)
    = Ok (Some 1%positive, h') /\
    h' !! 1%positive = Some f' /\
    create_candlestick_chart f' "Gold (GC=F)" = Ok fig /\
    length (Plot.fig_traces fig) = 7%nat /\
    forall (t : Plot.trace) (row col : nat),
      (t, row, col) ∈ Plot.fig_traces fig ->
      Plot.x_of t = frame_index climb_raw /\
      forall s, s ∈ Plot.series_of t -> length s = frame_len climb_raw.
Proof.
  apply (chart_after_engine approx_sqrt (heap_of climb_raw) 1%positive climb_raw
           "Gold (GC=F)");
    [reflexivity | apply frame_of_closes_wf | vm_compute; lia
    | apply frame_of_closes_columns].
Defined.

Lemma rsi_shift_invariant_witness :
  exists (h1' h2' : heap) (f1' f2' : frame) (rsi1 rsi2 : Series.t),
    calculate_technical_indicators approx_sqrt (Some 1%positive) (heap_of climb_raw)
    = Ok (Some 1%positive, h1') /\
    calculate_technical_indicators approx_sqrt (Some 1%positive)
      (heap_of (frame_of_closes (Qplus 1000 <$> climb20)))
    = Ok (Some 1%positive, h2') /\
    h1' !! 1%positive = Some f1' /\ h2' !! 1%positive = Some f2' /\
    frame_cols f1' !! "RSI" = Some rsi1 /\ frame_cols f2' !! "RSI" = Some rsi2 /\
    length rsi1 = length rsi2 /\
    forall (i : nat) (r1 r2 : fl),
      rsi1 !! i = Some r1 -> rsi2 !! i = Some r2 -> Fl.eqv r1 r2.
Proof.
  apply (rsi_shift_invariant approx_sqrt 1000 climb20
           (heap_of climb_raw) (heap_of (frame_of_closes (Qplus 1000 <$> climb20)))
           1%positive 1%positive climb_raw (frame_of_closes (Qplus 1000 <$> climb20)));
    [reflexivity | reflexivity | reflexivity | reflexivity
    | vm_compute; lia | vm_compute; lia].
Defined.

Lemma confidence_cap_witness :
  exists q : Q,
    Fin 80 = Fin q /\
    (Qabs ((222 # 2) - (211 # 2)) / (211 # 2) < 3 # 100 ->
     q == 50 + Qabs ((222 # 2) - (211 # 2)) / (211 # 2) * 1000) /\
    (3 # 100 <= Qabs ((222 # 2) - (211 # 2)) / (211 # 2) -> q == 80).
Proof.
  apply (confidence_cap other_frame (222 # 2) (211 # 2) (Fin (200 # 3))
           BUY "Price above SMA20, RSI: 66.7" (Fin 80));
    [vm_compute; lia | reflexivity | reflexivity | reflexivity | reflexivity
    | vm_compute; reflexivity | by left].
Defined.

Lemma dashboard_metrics_total_witness :
  (exists (m : metrics) (k : kind) (reason : string) (conf : fl),
     dashboard_metrics approx_sqrt (Some 1%positive) (heap_of climb_raw)
     = Ok (Some m) /\
     signal_shown m = (k, reason, conf) /\ k <> INSUFFICIENT_DATA) /\
  dashboard_metrics approx_sqrt (Some 1%positive) (heap_of close_only20)
  = Raise (KeyError "Volume").
Proof.
  split.
  - refine (proj1 (proj2 (dashboard_metrics_total approx_sqrt (heap_of climb_raw)
                            1%positive climb_raw _ _ _)) _ _);
      [reflexivity | apply frame_of_closes_wf | eexists; reflexivity
      | vm_compute; lia | eexists; reflexivity].
  - refine (proj2 (proj2 (dashboard_metrics_total approx_sqrt (heap_of close_only20)
                            1%positive close_only20 _ _ _)) _ _);
      [reflexivity | | eexists; reflexivity | vm_compute; lia | reflexivity].
    intros k c. unfold close_only20, frame_len. cbn [frame_cols frame_index].
    rewrite lookup_singleton_Some. intros [_ <-]. reflexivity.
Defined.


Lemma cli_signal_lines_witness :
  exists (sma : Series.t) (p s : fl),
    latest climb_raw "Close" = Ok p /\
    simple_moving_average climb_raw 20 = Ok sma /\
    Series.iloc_last sma = Some s /\
    (Cli.main (provider_of climb_raw)).2 = Ok tt /\
    (Cli.buy_line ∈ (Cli.main (provider_of climb_raw)).1 <->
     Fl.isnan s = false /\ (p >? s)%fl = true) /\
    (Cli.sell_line ∈ (Cli.main (provider_of climb_raw)).1 <->
     Fl.isnan s = false /\ (p >? s)%fl = false) /\
    ((frame_len climb_raw < 20)%nat -> s = NaN).
Proof.
  apply (cli_signal_lines (provider_of climb_raw) climb_raw (Fin <$> climb20));
    [reflexivity | apply frame_of_closes_wf | reflexivity | | vm_compute; lia].
  intros k Hk. apply frame_of_closes_columns.
  rewrite !elem_of_cons, elem_of_nil in Hk.
  destruct Hk as [->|[->|[->|[ ]]]]; repeat constructor.
Defined.
